(** * Admin order actions and the shop logo widget

    A shallow embedding of [src/actions/admin-orders.ts] (the server actions
    of the admin panel) and of
    [_workers_next/src/components/nav/shop-logo.tsx], with the properties of
    the specification stated over it.

    Conventions of the embedding:
    - a JavaScript string is the list of its UTF-16 code units;
    - the relational store is explicit state, every statement sent to it may
      be refused by the driver (a fault oracle indexed by the number of the
      statement), and [db.transaction] restores the store when its body
      throws;
    - [revalidatePath] appends to a log of invalidated view paths;
    - the platform's URL parser and the payment gateway are parameters. *)

From Stdlib Require Import ZArith NArith String Ascii List Bool Lia.
From Stdlib Require Import DecimalString.
From stdpp Require Import base option list gmap.

Local Open Scope Z_scope.
Set Warnings "-register-all".

(** ** JavaScript strings *)

Module JsString.

(** One UTF-16 code unit. *)
Definition code_unit := N.

Abbreviation jstring := (list N).

(** The code units of an ASCII literal. *)
Definition js (s : string) : jstring :=
  List.map N_of_ascii (list_ascii_of_string s).

(** ECMAScript [WhiteSpace] and [LineTerminator] code points, the ones
    [String.prototype.trim] strips. *)
Definition is_ws (c : code_unit) : bool :=
  (existsb (N.eqb c)
     [9; 10; 11; 12; 13; 32; 160; 5760; 8232; 8233; 8239; 8287; 12288; 65279]
   || (N.leb 8192 c && N.leb c 8202))%N.

Fixpoint trimStart (s : jstring) : jstring :=
  match s with
  | c :: s' => if is_ws c then trimStart s' else s
  | [] => []
  end.

Definition trimEnd (s : jstring) : jstring := rev (trimStart (rev s)).

(** [s.trim()] *)
Definition trim (s : jstring) : jstring := trimEnd (trimStart s).

(** A string is truthy when it is not empty. *)
Definition truthy (s : jstring) : bool :=
  match s with [] => false | _ :: _ => true end.

(** [a || b] on strings. *)
Definition or_else (a b : jstring) : jstring := if truthy a then a else b.

(** [s.slice(0, 1)] *)
Definition slice01 (s : jstring) : jstring := take 1 s.

Fixpoint startsWith (p s : jstring) : bool :=
  match p, s with
  | [], _ => true
  | a :: p', b :: s' => N.eqb a b && startsWith p' s'
  | _ :: _, [] => false
  end.

(** [s.endsWith(p)] *)
Definition endsWith (s p : jstring) : bool := startsWith (rev p) (rev s).

(** [s.indexOf(p)], [None] for -1. *)
Fixpoint indexOf (p s : jstring) : option nat :=
  if startsWith p s then Some O
  else match s with
       | [] => None
       | _ :: s' => S <$> indexOf p s'
       end.

(** [s.replace(p, r)] for a string pattern [p] and a replacement [r] without
    [$]: the first occurrence only. *)
Definition replace (s p r : jstring) : jstring :=
  match indexOf p s with
  | None => s
  | Some i => take i s ++ r ++ drop (i + length p) s
  end.

(** Decimal rendering of an integer. *)
Definition of_Z (z : Z) : jstring := js (NilZero.string_of_int (Z.to_int z)).

End JsString.
Import JsString.

(** ** The platform's URL parser

    [new URL(s)] either throws or yields a record; the actions read four of
    its components. *)

Record URL := mkURL {
  protocol : jstring;   (* with its colon, [https:] *)
  host : jstring;       (* hostname and, if present, the port *)
  pathname : jstring;
  origin : jstring
}.

Definition url_parser := jstring -> option URL.

(** ** shop-logo.tsx *)

Module ShopLogo.

Section WithParser.
Variable new_URL : url_parser.

Definition getFaviconUrl (url : jstring) : jstring :=
  match new_URL url with
  | Some u => origin u ++ js "/favicon.ico"
  | None => []
  end.

(** [name?.trim()?.slice(0, 1) || "L"]; [None] is a missing name. *)
Definition fallbackLetter (name : option jstring) : jstring :=
  match name with
  | Some n => or_else (slice01 (trim n)) (js "L")
  | None => js "L"
  end.

(** [(logo || "").trim() || favicon] *)
Definition src (url : jstring) (logo : option jstring) : jstring :=
  or_else (trim (or_else (default [] logo) [])) (getFaviconUrl url).

Record Props := mkProps {
  name : option jstring;
  url : jstring;
  logo : option jstring
}.

(** What the component puts inside its box. *)
Inductive Child :=
| Img (img_src : jstring) (alt : option jstring)
| Letter (text : jstring).

Record Rendered := mkRendered {
  transparent : bool;   (* whether [bg-transparent] is passed to [cn] *)
  child : Child
}.

(** One render, [error] being the component's state. *)
Definition render (p : Props) (error : bool) : Rendered :=
  let s := src (url p) (logo p) in
  let show := truthy s && negb error in
  {| transparent := show;
     child := if show then Img s (name p) else Letter (fallbackLetter (name p)) |}.

(** The [onError] handler of the image: [setError(true)]. *)
Definition onError (error : bool) : bool := true.

(** The state of the first render: [useState(false)]. *)
Definition initial_error : bool := false.

End WithParser.
End ShopLogo.

(** ** JavaScript values, as [JSON.parse] produces them *)

Module JsValue.

Inductive jsval :=
| JUndefined
| JNull
| JBool (b : bool)
| JNum (z : Z)                 (* an integer of magnitude below 1e21 *)
| JNumOther (shown : jstring)  (* any other number, with its rendering *)
| JStr (s : jstring)
| JArr (items : list jsval)
| JObj (fields : list (jstring * jsval)).

(** Exceptions; each carries the [message] the [catch] blocks read. *)
Inductive exn :=
| Error (message : jstring)         (* [new Error(...)] of the actions *)
| TypeError (message : jstring)     (* raised by the language *)
| DriverError (message : jstring)   (* a statement refused by the store *)
| FetchError (message : jstring)    (* [fetch] rejected or [json()] failed *)
| Unauthorized (message : jstring). (* rejection by [checkAdmin] *)

Definition message (e : exn) : jstring :=
  match e with
  | Error m | TypeError m | DriverError m | FetchError m | Unauthorized m => m
  end.

(** ToBoolean *)
Definition js_truthy (v : jsval) : bool :=
  match v with
  | JUndefined | JNull | JBool false | JNum 0 | JStr [] => false
  | _ => true
  end.

Fixpoint assoc (k : jstring) (fields : list (jstring * jsval)) : option jsval :=
  match fields with
  | [] => None
  | (k', v) :: rest => if decide (k = k') then Some v else assoc k rest
  end.

(** [v.k] for the property names the actions read ([code], [status], [msg]),
    which no prototype defines: own properties of an object, [undefined] on
    every other value, a [TypeError] on [null] and [undefined]. *)
Definition get (v : jsval) (k : jstring) : exn + jsval :=
  match v with
  | JUndefined =>
      inl (TypeError (js "Cannot read properties of undefined (reading '" ++ k ++ js "')"))
  | JNull =>
      inl (TypeError (js "Cannot read properties of null (reading '" ++ k ++ js "')"))
  | JObj fields => inr (default JUndefined (assoc k fields))
  | _ => inr JUndefined
  end.

(** [v === n] for a number literal [n]. *)
Definition strict_eq_num (v : jsval) (n : Z) : bool :=
  match v with JNum z => Z.eqb z n | _ => false end.

(** ToString, as a template literal applies it. A parsed object that has an
    own [toString] property (never callable) cannot be converted; every other
    object renders through [Object.prototype.toString]. *)
Fixpoint toString (v : jsval) : exn + jstring :=
  match v with
  | JUndefined => inr (js "undefined")
  | JNull => inr (js "null")
  | JBool true => inr (js "true")
  | JBool false => inr (js "false")
  | JNum z => inr (of_Z z)
  | JNumOther shown => inr shown
  | JStr s => inr s
  | JArr items =>
      (fix join (l : list jsval) : exn + jstring :=
         match l with
         | [] => inr []
         | x :: l' =>
             match (match x with
                    | JUndefined | JNull => inr []
                    | _ => toString x
                    end), join l' with
             | inl e, _ => inl e
             | inr _, inl e => inl e
             | inr a, inr b =>
                 inr (match l' with [] => a | _ :: _ => a ++ js "," ++ b end)
             end
         end) items
  | JObj fields =>
      match assoc (js "toString") fields with
      | Some _ => inl (TypeError (js "Cannot convert object to primitive value"))
      | None => inr (js "[object Object]")
      end
  end.

End JsValue.
Import JsValue.

(** ** The relational store

    Modelled from the spec: the table declarations ([lib/db/schema]) are not
    among the sources. Section 3 of the specification gives the columns the
    actions touch: an order is identified by its order-id and a user by its
    user-id (the keys of the two maps); the used-flag of a card is a boolean
    and a points balance an integer. *)

Module Store.

Inductive OrderStatus := pending | paid | delivered | cancelled | refunded.

Record Order := mkOrder {
  status : OrderStatus;
  paidAt : option Z;
  deliveredAt : option Z;
  userId : option jstring;
  pointsUsed : option Z;
  email : option jstring;
  cardKey : option jstring
}.

Record Card := mkCard {
  cardId : Z;
  isUsed : bool;
  reservedOrderId : option jstring;
  reservedAt : option Z
}.

Record User := mkUser {
  username : option jstring;
  points : Z
}.

Record RefundRequest := mkRefundRequest {
  requestId : Z;
  orderId : jstring
}.

Record Tables := mkTables {
  orders : gmap jstring Order;
  cards : list Card;
  loginUsers : gmap jstring User;
  refundRequests : list RefundRequest
}.

(** *** The statements the actions send *)

(** [query.orders.findFirst({ where: eq(orders.orderId, id) })] *)
Definition findFirst_order (id : jstring) (t : Tables) : option Order :=
  orders t !! id.

(** [update(orders).set(...).where(eq(orders.orderId, id))] *)
Definition update_orders (set : Order -> Order) (id : jstring) (t : Tables) : Tables :=
  mkTables (alter set id (orders t)) (cards t) (loginUsers t) (refundRequests t).

(** [update(loginUsers).set({ points: points + p }).where(eq(loginUsers.userId, u))] *)
Definition credit_points (u : jstring) (p : Z) (t : Tables) : Tables :=
  mkTables (orders t) (cards t)
    (alter (fun usr => mkUser (username usr) (points usr + p)) u (loginUsers t))
    (refundRequests t).

(** The [where] clause [reserved_order_id = id AND is_used = false]. *)
Definition reserved_unused (id : jstring) (c : Card) : bool :=
  bool_decide (reservedOrderId c = Some id) && negb (isUsed c).

(** [set({ reservedOrderId: null, reservedAt: null })] *)
Definition clear_reservation (c : Card) : Card :=
  mkCard (cardId c) (isUsed c) None None.

(** [update(cards).set(...).where(...)] *)
Definition release_cards (id : jstring) (t : Tables) : Tables :=
  mkTables (orders t)
    ((fun c => if reserved_unused id c then clear_reservation c else c) <$> cards t)
    (loginUsers t) (refundRequests t).

(** [delete(refundRequests).where(eq(refundRequests.orderId, id))] *)
Definition delete_refundRequests (id : jstring) (t : Tables) : Tables :=
  mkTables (orders t) (cards t) (loginUsers t)
    (List.filter (fun r => negb (bool_decide (orderId r = id))) (refundRequests t)).

(** [delete(orders).where(eq(orders.orderId, id))] *)
Definition delete_order (id : jstring) (t : Tables) : Tables :=
  mkTables (delete id (orders t)) (cards t) (loginUsers t) (refundRequests t).

End Store.
Import Store.

(** ** The effects of a server action *)

Module Action.

Inductive Reply :=
| Rejects (e : exn)        (* [fetch] or [res.json()] throws *)
| Json (data : jsval).     (* the parsed body *)

(** What an action finds around it. *)
Record Ctx := mkCtx {
  rejection : option jstring;                (* what [checkAdmin] throws, if it does *)
  now : Z;                                   (* [new Date()] *)
  MERCHANT_ID : option jstring;              (* [process.env.*] *)
  MERCHANT_KEY : option jstring;
  PAY_URL : option jstring;
  new_URL : url_parser;
  gateway : jstring -> list (jstring * jstring) -> Reply;
  faults : nat -> option jstring             (* statement n refused, with a message *)
}.

Record World := mkWorld {
  db : Tables;
  revalidated : list jstring;   (* paths given to [revalidatePath], oldest first *)
  statements : nat              (* statements sent to the store so far *)
}.

Inductive result (A : Type) :=
| Ok (a : A)
| Throw (e : exn).
Arguments Ok {A} a.
Arguments Throw {A} e.

Definition M (A : Type) : Type := Ctx -> World -> result A * World.

#[global] Instance M_ret : MRet M := fun A a _ w => (Ok a, w).

#[global] Instance M_bind : MBind M := fun A B f m ctx w =>
  match m ctx w with
  | (Ok a, w') => f a ctx w'
  | (Throw e, w') => (Throw e, w')
  end.

Definition throw {A} (e : exn) : M A := fun _ w => (Throw e, w).

Definition lift {A} (r : exn + A) : M A :=
  match r with inl e => throw e | inr a => mret a end.

Definition ask : M Ctx := fun ctx w => (Ok ctx, w).

(** [try { body } catch (e) { handler e }]; what [body] did stays done. *)
Definition try_catch {A} (body : M A) (handler : exn -> M A) : M A :=
  fun ctx w =>
    match body ctx w with
    | (Ok a, w') => (Ok a, w')
    | (Throw e, w') => handler e ctx w'
    end.

(** One statement sent to the store. *)
Definition statement {A} (run : Tables -> A * Tables) : M A := fun ctx w =>
  let w' t := mkWorld t (revalidated w) (S (statements w)) in
  match faults ctx (statements w) with
  | Some m => (Throw (DriverError m), w' (db w))
  | None => let '(a, t) := run (db w) in (Ok a, w' t)
  end.

Definition exec (run : Tables -> Tables) : M unit :=
  statement (fun t => (tt, run t)).

Definition query {A} (run : Tables -> A) : M A :=
  statement (fun t => (run t, t)).

(** [db.transaction(async (tx) => body)]: begin, the body, commit; when any of
    these throws the store is rolled back and the exception propagates. *)
Definition transaction {A} (body : M A) : M A := fun ctx w =>
  match (exec id;; a ← body; exec id;; mret a) ctx w with
  | (Ok a, w') => (Ok a, w')
  | (Throw e, w') => (Throw e, mkWorld (db w) (revalidated w') (statements w'))
  end.

Definition revalidatePath (path : jstring) : M unit := fun _ w =>
  (Ok tt, mkWorld (db w) (revalidated w ++ [path]) (statements w)).

(** Modelled from the spec: [checkAdmin] ([actions/admin]) is not among the
    sources. It is the authorization gate invoked first by every operation:
    it approves the caller or fails the whole operation by throwing. *)
Definition checkAdmin : M unit := fun ctx w =>
  match rejection ctx with
  | None => (Ok tt, w)
  | Some m => (Throw (Unauthorized m), w)
  end.

(** [for (const x of l) { await f(x) }] *)
Fixpoint for_of {A} (l : list A) (f : A -> M unit) : M unit :=
  match l with
  | [] => mret tt
  | x :: l' => f x;; for_of l' f
  end.

End Action.
Import Action.

(** ** admin-orders.ts *)

Module AdminOrders.

(** The errors of the actions, under the names of the specification's
    taxonomy. *)
Definition InvalidArgument : exn := Error (js "Missing order id").
Definition NotFound : exn := Error (js "Order not found").
Definition PreconditionFailed : exn :=
  Error (js "Missing card key; cannot mark delivered").
Definition ConfigurationError : exn := Error (js "Missing merchant config").

(** [if (!orderId) throw new Error("Missing order id")] *)
Definition require_orderId (orderId : jstring) : M unit :=
  if truthy orderId then mret tt else throw InvalidArgument.

Definition set_paid (at_ : Z) (o : Order) : Order :=
  mkOrder paid (Some at_) (deliveredAt o) (userId o) (pointsUsed o) (email o) (cardKey o).

Definition set_delivered (at_ : Z) (o : Order) : Order :=
  mkOrder delivered (paidAt o) (Some at_) (userId o) (pointsUsed o) (email o) (cardKey o).

Definition set_status (s : OrderStatus) (o : Order) : Order :=
  mkOrder s (paidAt o) (deliveredAt o) (userId o) (pointsUsed o) (email o) (cardKey o).

Definition set_email (e : option jstring) (o : Order) : Order :=
  mkOrder (status o) (paidAt o) (deliveredAt o) (userId o) (pointsUsed o) e (cardKey o).

Definition markOrderPaid (orderId : jstring) : M unit :=
  checkAdmin;;
  require_orderId orderId;;
  ctx ← ask;
  exec (update_orders (set_paid (now ctx)) orderId);;
  revalidatePath (js "/admin/orders");;
  revalidatePath (js "/admin/orders/" ++ orderId);;
  revalidatePath (js "/order/" ++ orderId).

(** [!order.cardKey] *)
Definition no_cardKey (o : Order) : bool :=
  negb (truthy (default [] (cardKey o))).

Definition markOrderDelivered (orderId : jstring) : M unit :=
  checkAdmin;;
  require_orderId orderId;;
  order ← query (findFirst_order orderId);
  match order with
  | None => throw NotFound
  | Some o =>
      if no_cardKey o then throw PreconditionFailed
      else
        ctx ← ask;
        exec (update_orders (set_delivered (now ctx)) orderId);;
        revalidatePath (js "/admin/orders");;
        revalidatePath (js "/admin/orders/" ++ orderId);;
        revalidatePath (js "/order/" ++ orderId)
  end.

(** [order.userId && order.pointsUsed && order.pointsUsed > 0], with the
    user and the amount when it holds. *)
Definition refund_due (o : Order) : option (jstring * Z) :=
  match userId o, pointsUsed o with
  | Some u, Some p =>
      if truthy u && negb (p =? 0) && (0 <? p) then Some (u, p) else None
  | _, _ => None
  end.

(** The two [ALTER TABLE ... ADD COLUMN IF NOT EXISTS] statements, in their
    [try] with an empty [catch]. *)
Definition ensure_reservation_columns : M unit :=
  try_catch (exec id) (fun _ => mret tt).

Definition cancelOrder (orderId : jstring) : M unit :=
  checkAdmin;;
  require_orderId orderId;;
  transaction (
    order ← query (findFirst_order orderId);
    match order ≫= refund_due with
    | Some (u, p) => exec (credit_points u p)
    | None => mret tt
    end;;
    exec (update_orders (set_status cancelled) orderId);;
    ensure_reservation_columns;;
    exec (release_cards orderId));;
  revalidatePath (js "/admin/orders");;
  revalidatePath (js "/admin/orders/" ++ orderId);;
  revalidatePath (js "/order/" ++ orderId).

(** [(email || '').trim()], then [next || null] *)
Definition normalize_email (email : option jstring) : option jstring :=
  let next := trim (or_else (default [] email) []) in
  if truthy next then Some next else None.

Definition updateOrderEmail (orderId : jstring) (email : option jstring) : M unit :=
  checkAdmin;;
  require_orderId orderId;;
  exec (update_orders (set_email (normalize_email email)) orderId);;
  revalidatePath (js "/admin/orders");;
  revalidatePath (js "/admin/orders/" ++ orderId).

Definition deleteOneOrder (orderId : jstring) : M unit :=
  order ← query (findFirst_order orderId);
  match order with
  | None => mret tt
  | Some o =>
      match refund_due o with
      | Some (u, p) => exec (credit_points u p)
      | None => mret tt
      end;;
      ensure_reservation_columns;;
      exec (release_cards orderId);;
      try_catch (exec (delete_refundRequests orderId)) (fun _ => mret tt);;
      exec (delete_order orderId)
  end.

Definition deleteOrder (orderId : jstring) : M unit :=
  checkAdmin;;
  require_orderId orderId;;
  transaction (deleteOneOrder orderId);;
  revalidatePath (js "/admin/orders");;
  revalidatePath (js "/admin/orders/" ++ orderId).

(** [(orderIds || []).map((s) => String(s).trim()).filter(Boolean)];
    [None] is a missing list. *)
Definition clean_ids (orderIds : option (list jstring)) : list jstring :=
  List.filter truthy (List.map trim (default [] orderIds)).

Definition deleteOrders (orderIds : option (list jstring)) : M unit :=
  checkAdmin;;
  let ids := clean_ids orderIds in
  match ids with
  | [] => mret tt
  | _ :: _ =>
      transaction (for_of ids deleteOneOrder);;
      revalidatePath (js "/admin/orders")
  end.

(** *** verifyOrderRefundStatus *)

Record VerifyResult := mkVerifyResult {
  success : bool;
  result_status : option jsval;   (* the [status] key, when the object has it *)
  msg : option jstring;
  error : option jsval
}.

Definition default_payUrl : jstring := js "https://credit.linux.do/epay/pay/submit.php".
Definition default_apiUrl : jstring := js "https://credit.linux.do/epay/api.php".

(** [process.env.PAY_URL || '...'] *)
Definition payUrl_of (ctx : Ctx) : jstring :=
  or_else (default [] (PAY_URL ctx)) default_payUrl.

(** The path of the status query, from the path of the submission endpoint. *)
Definition api_pathname (path : jstring) : jstring :=
  replace (replace path (js "/pay/submit.php") (js "/api.php"))
    (js "/submit.php") (js "/api.php").

(** The [try] block that computes [apiUrl]. *)
Definition derive_apiUrl (parse : url_parser) (payUrl : jstring) : jstring :=
  match parse payUrl with
  | None => default_apiUrl
  | Some urlObj =>
      let apiUrl := protocol urlObj ++ js "//" ++ host urlObj ++ api_pathname (pathname urlObj) in
      if endsWith apiUrl (js "api.php") then apiUrl
      else protocol urlObj ++ js "//" ++ host urlObj ++ js "/epay/api.php"
  end.

(** The entries given to [URLSearchParams]. *)
Definition status_query (merchantId merchantKey orderId : jstring) : list (jstring * jstring) :=
  [(js "act", js "order"); (js "pid", merchantId); (js "key", merchantKey);
   (js "out_trade_no", orderId)].

(** [await fetch(...)] then [await res.json()] *)
Definition fetch_json (apiUrl : jstring) (q : list (jstring * jstring)) : M jsval :=
  ctx ← ask;
  match gateway ctx apiUrl q with
  | Rejects e => throw e
  | Json data => mret data
  end.

(** [data.msg || 'Query failed'] *)
Definition failure_text (m : jsval) : jsval :=
  if js_truthy m then m else JStr (js "Query failed").

Definition interpret_reply (orderId : jstring) (data : jsval) : M VerifyResult :=
  code ← lift (get data (js "code"));
  if strict_eq_num code 1 then
    st ← lift (get data (js "status"));
    if strict_eq_num st 0 then
      exec (update_orders (set_status refunded) orderId);;
      revalidatePath (js "/admin/orders");;
      mret (mkVerifyResult true (Some st) (Some (js "Refunded (Verified)")) None)
    else if strict_eq_num st 1 then
      mret (mkVerifyResult true (Some st) (Some (js "Paid (Not Refunded)")) None)
    else
      shown ← lift (toString st);
      mret (mkVerifyResult true (Some st) (Some (js "Status: " ++ shown)) None)
  else
    m ← lift (get data (js "msg"));
    mret (mkVerifyResult false None None (Some (failure_text m))).

Definition verifyOrderRefundStatus (orderId : jstring) : M VerifyResult :=
  checkAdmin;;
  require_orderId orderId;;
  ctx ← ask;
  let merchantId := default [] (MERCHANT_ID ctx) in
  let merchantKey := default [] (MERCHANT_KEY ctx) in
  if negb (truthy merchantId) || negb (truthy merchantKey) then throw ConfigurationError
  else
    let apiUrl := derive_apiUrl (new_URL ctx) (payUrl_of ctx) in
    let q := status_query merchantId merchantKey orderId in
    try_catch
      (data ← fetch_json apiUrl q; interpret_reply orderId data)
      (* [console.error] writes to the log only *)
      (fun e => mret (mkVerifyResult false None None (Some (JStr (message e))))).

End AdminOrders.
Import AdminOrders.

(** ** Vocabulary of the specification *)

(** The points balance of user [u], when [u] has an account. *)
Definition balance (t : Tables) (u : jstring) : option Z :=
  points <$> loginUsers t !! u.

(** Going from store [t] to store [t'] releases the cards reserved for order
    [id]: each unused card whose reservation points at [id] is, in place,
    the same card with both reservation fields null. *)
Definition releases (id : jstring) (t t' : Tables) : Prop :=
  forall i c, cards t !! i = Some c ->
    reservedOrderId c = Some id -> isUsed c = false ->
    cards t' !! i = Some (mkCard (cardId c) false None None).

(** Going from [t] to [t'] leaves every used card as it was. *)
Definition keeps_used (t t' : Tables) : Prop :=
  forall i c, cards t !! i = Some c -> isUsed c = true -> cards t' !! i = Some c.

(** The caller passes the authorization gate. *)
Definition authorized (ctx : Ctx) : Prop := rejection ctx = None.

(** Merchant id [m] and key [k] are configured. *)
Definition credentials (ctx : Ctx) (m k : jstring) : Prop :=
  MERCHANT_ID ctx = Some m /\ m <> [] /\ MERCHANT_KEY ctx = Some k /\ k <> [].

(** What the gateway answers to the status query for order [id]. *)
Definition gateway_reply (ctx : Ctx) (id m k : jstring) : Reply :=
  gateway ctx (derive_apiUrl (new_URL ctx) (payUrl_of ctx)) (status_query m k id).

(** The failure result [{ success: false, error }]. *)
Definition failure (error : jsval) : VerifyResult :=
  mkVerifyResult false None None (Some error).

(** An action that never invalidates a view. *)
Definition silent {A} (m : M A) : Prop :=
  forall ctx w r w', m ctx w = (r, w') -> revalidated w' = revalidated w.

(** An action that never changes the cards table. *)
Definition keeps_cards {A} (m : M A) : Prop :=
  forall ctx w r w', m ctx w = (r, w') -> cards (db w') = cards (db w).

(** ** Sample data *)

Module Sample.

(** What the platform's parser answers on three addresses; every other
    string of this table does not parse. *)
Definition parse : url_parser := fun s =>
  if decide (s = js "https://credit.linux.do/epay/pay/submit.php") then
    Some (mkURL (js "https:") (js "credit.linux.do") (js "/epay/pay/submit.php")
            (js "https://credit.linux.do"))
  else if decide (s = js "https://pay.example.com/gateway") then
    Some (mkURL (js "https:") (js "pay.example.com") (js "/gateway")
            (js "https://pay.example.com"))
  else if decide (s = js "https://shop.example.com/store?x=1") then
    Some (mkURL (js "https:") (js "shop.example.com") (js "/store")
            (js "https://shop.example.com"))
  else None.

Definition orderA : Order :=
  mkOrder pending None None (Some (js "u1")) (Some 5) None (Some (js "KEY-1")).

Definition orderB : Order := mkOrder paid (Some 900) None None None None None.

Definition card1 : Card := mkCard 1 false (Some (js "A")) (Some 950).
Definition card2 : Card := mkCard 2 true (Some (js "A")) (Some 940).
Definition card3 : Card := mkCard 3 false (Some (js "B")) (Some 930).
Definition card4 : Card := mkCard 4 false None None.

Definition tables : Tables :=
  mkTables {[ js "A" := orderA; js "B" := orderB ]}
    [card1; card2; card3; card4]
    {[ js "u1" := mkUser (Some (js "alice")) 10 ]}
    [mkRefundRequest 1 (js "A")].

Definition world : World := mkWorld tables [] 0.

Definition never : nat -> option jstring := fun _ => None.

(** Only statement [n] is refused. *)
Definition only (n : nat) : nat -> option jstring := fun k =>
  if decide (k = n) then Some (js "connection lost") else None.

(** An authorized caller, configured credentials, no [PAY_URL]; the gateway
    answers [g] and the store refuses the statements [f] selects. *)
Definition ctx_with (g : Reply) (f : nat -> option jstring) : Ctx :=
  mkCtx None 1000 (Some (js "1001")) (Some (js "secret")) None parse
    (fun _ _ => g) f.

Definition refunded_reply : Reply :=
  Json (JObj [(js "code", JNum 1); (js "status", JNum 0)]).

Definition bad_pid_reply : Reply :=
  Json (JObj [(js "code", JNum 0); (js "msg", JStr (js "bad pid"))]).

Definition ctx : Ctx := ctx_with refunded_reply never.

End Sample.

(** ** Further vocabulary *)

(** A string with no white space at either end. *)
Definition edge_clean (s : jstring) : Prop :=
  (forall (c : N) (r : jstring), s = c :: r -> is_ws c = false) /\
  (forall (r : jstring) (c : N), s = r ++ [c] -> is_ws c = false).

(** Going from [t] to [t'] changes nothing outside the orders table. *)
Definition other_tables_kept (t t' : Tables) : Prop :=
  cards t' = cards t /\ loginUsers t' = loginUsers t /\
  refundRequests t' = refundRequests t.

(** Going from [t] to [t'] changes no order other than [id]. *)
Definition other_orders_kept (id : jstring) (t t' : Tables) : Prop :=
  forall k, k <> id -> orders t' !! k = orders t !! k.

(** The points an order gives back to user [u] when it is cancelled or
    deleted; [o] is what the store holds under the order's id. *)
Definition refund_to (u : jstring) (o : option Order) : Z :=
  match o ≫= refund_due with
  | Some (owner, p) => if decide (owner = u) then p else 0
  | None => 0
  end.

(** The refunds to [u] of the orders [ids], each id counted once. *)
Definition refund_total (u : jstring) (os : gmap jstring Order) (ids : list jstring) : Z :=
  foldr (fun id acc => refund_to u (os !! id) + acc) 0 (remove_dups ids).

(** The context [ctx] with the gateway replaced by [g]. *)
Definition with_gateway (g : jstring -> list (jstring * jstring) -> Reply) (ctx : Ctx) : Ctx :=
  mkCtx (rejection ctx) (now ctx) (MERCHANT_ID ctx) (MERCHANT_KEY ctx) (PAY_URL ctx)
    (new_URL ctx) g (faults ctx).

(** What every action respects when it takes the store from [t] to [t']: no
    order is created; no account is created or removed, no user name changes
    and no balance goes down; no card is created or removed and none changes
    its id or its used-flag; no refund request is created. *)
Definition evolves (t t' : Tables) : Prop :=
  (forall k, orders t !! k = None -> orders t' !! k = None)
  /\ (forall u, option_Forall2
                  (fun a a' => username a' = username a /\ points a <= points a')
                  (loginUsers t !! u) (loginUsers t' !! u))
  /\ (fun c => (cardId c, isUsed c)) <$> cards t' =
     (fun c => (cardId c, isUsed c)) <$> cards t
  /\ (forall r, In r (refundRequests t') -> In r (refundRequests t)).

(** An action that takes the store only to stores related to it by [R]. *)
Definition respects (R : Tables -> Tables -> Prop) {A} (m : M A) : Prop :=
  forall ctx w r w', m ctx w = (r, w') -> R (db w) (db w').

(** A call of one of the exported actions. *)
Inductive Call :=
| MarkPaid (orderId : jstring)
| MarkDelivered (orderId : jstring)
| Cancel (orderId : jstring)
| UpdateEmail (orderId : jstring) (email : option jstring)
| Delete (orderId : jstring)
| DeleteMany (orderIds : option (list jstring))
| Verify (orderId : jstring).

(** The world after a call made in context [ctx], whatever it returned or
    threw. *)
Definition after_call (c : Call) (ctx : Ctx) (w : World) : World :=
  match c with
  | MarkPaid id => (markOrderPaid id ctx w).2
  | MarkDelivered id => (markOrderDelivered id ctx w).2
  | Cancel id => (cancelOrder id ctx w).2
  | UpdateEmail id email => (updateOrderEmail id email ctx w).2
  | Delete id => (deleteOrder id ctx w).2
  | DeleteMany ids => (deleteOrders ids ctx w).2
  | Verify id => (verifyOrderRefundStatus id ctx w).2
  end.

(** The world after a sequence of calls, each in its own context. *)
Fixpoint after_calls (calls : list (Call * Ctx)) (w : World) : World :=
  match calls with
  | [] => w
  | (c, ctx) :: rest => after_calls rest (after_call c ctx w)
  end.

(** ** Further sample data *)

Module Cases.

(** A caller the gate rejects. *)
Definition stranger : Ctx :=
  mkCtx (Some (js "Unauthorized")) 1000 (Some (js "1001")) (Some (js "secret")) None
    Sample.parse (fun _ _ => Sample.refunded_reply) Sample.never.

(** The same caller as [Sample.ctx], one hour later. *)
Definition later : Ctx :=
  mkCtx None 4600 (Some (js "1001")) (Some (js "secret")) None
    Sample.parse (fun _ _ => Sample.refunded_reply) Sample.never.


(** A gateway that answers only the query of order [A] at the default
    endpoint. *)
Definition picky (elsewhere : Reply) : jstring -> list (jstring * jstring) -> Reply :=
  fun endpoint q =>
    if decide (endpoint = default_apiUrl /\
               q = status_query (js "1001") (js "secret") (js "A"))
    then Sample.refunded_reply else elsewhere.

End Cases.

(** * Properties *)

(** ** Running an action step by step *)

Section Inversion.
Context {A B : Type}.
Implicit Types (ctx : Ctx) (w : World).

Lemma bind_inv (m : M A) (f : A -> M B) ctx w r w' :
  (m ≫= f) ctx w = (r, w') ->
  (exists a w1, m ctx w = (Ok a, w1) /\ f a ctx w1 = (r, w')) \/
  (exists e, m ctx w = (Throw e, w') /\ r = Throw e).
Proof.
  unfold mbind, M_bind. destruct (m ctx w) as [[a|e] w1]; intros H.
  - left. eauto.
  - right. exists e. by simplify_eq.
Qed.

Lemma bind_Ok (m : M A) (f : A -> M B) ctx w b w' :
  (m ≫= f) ctx w = (Ok b, w') ->
  exists a w1, m ctx w = (Ok a, w1) /\ f a ctx w1 = (Ok b, w').
Proof.
  intros H. apply bind_inv in H as [H | (e & _ & ?)]; [done | discriminate].
Qed.

Lemma statement_inv (run : Tables -> A * Tables) ctx w r w' :
  statement run ctx w = (r, w') ->
  (exists m, faults ctx (statements w) = Some m /\ r = Throw (DriverError m) /\
             w' = mkWorld (db w) (revalidated w) (S (statements w))) \/
  (faults ctx (statements w) = None /\ r = Ok (run (db w)).1 /\
   w' = mkWorld (run (db w)).2 (revalidated w) (S (statements w))).
Proof.
  unfold statement. destruct (faults ctx (statements w)) as [m|]; intros H.
  - left. exists m. by simplify_eq.
  - right. destruct (run (db w)) as [a t]. by simplify_eq.
Qed.

End Inversion.

Section Primitives.
Implicit Types (ctx : Ctx) (w : World).

Lemma exec_Ok run ctx w u w' :
  exec run ctx w = (Ok u, w') ->
  faults ctx (statements w) = None /\
  w' = mkWorld (run (db w)) (revalidated w) (S (statements w)).
Proof.
  intros H. apply statement_inv in H as [(m & _ & ? & _) | (F & _ & ->)]; done.
Qed.

Lemma exec_Throw run ctx w e w' :
  exec run ctx w = (Throw e, w') ->
  w' = mkWorld (db w) (revalidated w) (S (statements w)).
Proof.
  intros H. apply statement_inv in H as [(m & _ & _ & ->) | (_ & ? & _)]; done.
Qed.

Lemma exec_run run ctx w :
  faults ctx (statements w) = None ->
  exec run ctx w = (Ok tt, mkWorld (run (db w)) (revalidated w) (S (statements w))).
Proof. intros F. unfold exec, statement. by rewrite F. Qed.

Lemma query_Ok {A} (run : Tables -> A) ctx w a w' :
  query run ctx w = (Ok a, w') ->
  faults ctx (statements w) = None /\ a = run (db w) /\
  w' = mkWorld (db w) (revalidated w) (S (statements w)).
Proof.
  intros H. apply statement_inv in H as [(m & _ & ? & _) | (F & ? & ->)];
    [done | simpl in *; by simplify_eq].
Qed.

Lemma query_Throw {A} (run : Tables -> A) ctx w e w' :
  query run ctx w = (Throw e, w') ->
  w' = mkWorld (db w) (revalidated w) (S (statements w)).
Proof.
  intros H. apply statement_inv in H as [(m & _ & _ & ->) | (_ & ? & _)]; done.
Qed.

Lemma query_run {A} (run : Tables -> A) ctx w :
  faults ctx (statements w) = None ->
  query run ctx w = (Ok (run (db w)), mkWorld (db w) (revalidated w) (S (statements w))).
Proof. intros F. unfold query, statement. by rewrite F. Qed.

Lemma checkAdmin_Ok ctx w u w' :
  checkAdmin ctx w = (Ok u, w') -> rejection ctx = None /\ w' = w.
Proof. unfold checkAdmin. destruct (rejection ctx); intros; by simplify_eq. Qed.

Lemma checkAdmin_Throw ctx w e w' :
  checkAdmin ctx w = (Throw e, w') ->
  w' = w /\ exists m, rejection ctx = Some m /\ e = Unauthorized m.
Proof. unfold checkAdmin. destruct (rejection ctx); intros; simplify_eq; eauto. Qed.

Lemma require_orderId_Ok id ctx w u w' :
  require_orderId id ctx w = (Ok u, w') -> id <> [] /\ w' = w.
Proof.
  unfold require_orderId, mret, M_ret, throw.
  destruct id; simpl; intros; by simplify_eq.
Qed.

Lemma require_orderId_Throw id ctx w e w' :
  require_orderId id ctx w = (Throw e, w') -> id = [] /\ e = InvalidArgument /\ w' = w.
Proof.
  unfold require_orderId, mret, M_ret, throw.
  destruct id; simpl; intros; by simplify_eq.
Qed.

Lemma ensure_reservation_columns_run ctx w :
  ensure_reservation_columns ctx w =
    (Ok tt, mkWorld (db w) (revalidated w) (S (statements w))).
Proof.
  unfold ensure_reservation_columns, try_catch, exec, statement.
  by destruct (faults ctx (statements w)).
Qed.

(** [db.transaction]: a throw leaves the store as it was; a return means
    begin, body and commit all went through. *)
Lemma transaction_inv {A} (body : M A) ctx w r w' :
  transaction body ctx w = (r, w') ->
  match r with
  | Throw _ => db w' = db w
  | Ok a =>
      faults ctx (statements w) = None /\
      exists w1,
        body ctx (mkWorld (db w) (revalidated w) (S (statements w))) = (Ok a, w1) /\
        faults ctx (statements w1) = None /\
        w' = mkWorld (db w1) (revalidated w1) (S (statements w1))
  end.
Proof.
  unfold transaction, mbind, M_bind, mret, M_ret, exec, statement.
  intros H.
  destruct (faults ctx (statements w)) eqn:F0; simpl in H; [by simplify_eq|].
  destruct (body ctx _) as [[a|e] w1] eqn:Hb; simpl in H; [|by simplify_eq].
  destruct (faults ctx (statements w1)) eqn:F1; simpl in H; simplify_eq; eauto.
Qed.

End Primitives.

(** Inverts a run that returned, one step at a time. *)
Ltac step_ok :=
  match goal with
  | H : (_ ≫= _) _ _ = (Ok _, _) |- _ =>
      let K := fresh "K" in
      apply bind_Ok in H as (? & ? & K & H)
  | H : mret _ _ _ = (Ok _, _) |- _ => unfold mret, M_ret in H; simplify_eq
  | H : ask _ _ = (Ok _, _) |- _ => unfold ask in H; simplify_eq
  | H : checkAdmin _ _ = (Ok _, _) |- _ => apply checkAdmin_Ok in H as [? ->]
  | H : require_orderId _ _ _ = (Ok _, _) |- _ => apply require_orderId_Ok in H as [? ->]
  | H : exec _ _ _ = (Ok _, _) |- _ => apply exec_Ok in H as [? ->]
  | H : query _ _ _ = (Ok _, _) |- _ => apply query_Ok in H as (? & -> & ->)
  | H : ensure_reservation_columns _ _ = (Ok _, _) |- _ =>
      rewrite ensure_reservation_columns_run in H; simplify_eq
  | H : revalidatePath _ _ _ = (Ok _, _) |- _ => unfold revalidatePath in H; simplify_eq
  | H : transaction _ _ _ = (Ok _, _) |- _ =>
      apply transaction_inv in H as (? & ? & H & ? & ->)
  end.

(** ** Points refund on cancellation *)

Lemma refund_due_Some o u p :
  refund_due o = Some (u, p) <->
  userId o = Some u /\ u <> [] /\ pointsUsed o = Some p /\ 0 < p.
Proof.
  unfold refund_due.
  destruct (userId o) as [u'|], (pointsUsed o) as [p'|];
    try (split; [discriminate | intros (? & _ & ? & _); discriminate]).
  destruct u' as [|c u']; simpl.
  { split; [discriminate | intros (? & ? & _); congruence]. }
  destruct (Z.eqb_spec p' 0), (Z.ltb_spec 0 p'); simpl; split;
    try discriminate; try (intros (? & _ & ? & ?); simplify_eq; lia).
  - intros ?; simplify_eq. done.
  - intros (? & _ & ? & ?); simplify_eq. done.
Qed.

Lemma refund_due_None o :
  userId o = None \/ userId o = Some [] \/ pointsUsed o = None \/ pointsUsed o = Some 0 ->
  refund_due o = None.
Proof.
  unfold refund_due. intros H.
  destruct (userId o) as [[|c u]|], (pointsUsed o) as [p|]; simpl; try done.
  destruct H as [? | [? | [? | ?]]]; by simplify_eq.
Qed.

Lemma balance_credit t u p v :
  balance (credit_points u p t) v =
  if decide (u = v) then (fun b => b + p) <$> balance t v else balance t v.
Proof.
  unfold balance, credit_points; simpl. rewrite lookup_alter.
  case_decide; [subst v|done]. by destruct (loginUsers t !! u).
Qed.

(** The store after a cancellation that went through. *)
Lemma cancelOrder_Ok id ctx w w' :
  cancelOrder id ctx w = (Ok tt, w') ->
  db w' = release_cards id (update_orders (set_status cancelled) id
            (match orders (db w) !! id ≫= refund_due with
             | Some (u, p) => credit_points u p (db w)
             | None => db w
             end)).
Proof.
  unfold cancelOrder. intros H. repeat step_ok. simpl.
  unfold findFirst_order in *.
  destruct (_ ≫= refund_due) as [[u p]|]; repeat step_ok; done.
Qed.

(** C1. When [cancelOrder] goes through on an existing order [o]: if [o] has
    a (non-empty) owning user-id [u] and [pointsUsed o = p > 0], the balance
    of [u] afterwards is its balance before plus [p] and every other balance
    is as before; if [o] has no user-id (null or empty) or [pointsUsed] is
    absent or 0, the accounts table is unchanged. *)
Theorem cancelOrder_points ctx id w w' o :
  cancelOrder id ctx w = (Ok tt, w') ->
  orders (db w) !! id = Some o ->
  (forall u p b, userId o = Some u -> u <> [] -> pointsUsed o = Some p -> 0 < p ->
     balance (db w) u = Some b ->
     balance (db w') u = Some (b + p) /\
     forall v, v <> u -> balance (db w') v = balance (db w) v)
  /\ (userId o = None \/ userId o = Some [] \/ pointsUsed o = None \/ pointsUsed o = Some 0 ->
     loginUsers (db w') = loginUsers (db w)).
Proof.
  intros H Ho. apply cancelOrder_Ok in H. rewrite Ho in H. simpl in H. split.
  - intros u p b Hu Hne Hp Hpos Hb.
    assert (refund_due o = Some (u, p)) as E by (apply refund_due_Some; done).
    rewrite E in H. rewrite H.
    change (balance (release_cards id (update_orders (set_status cancelled) id (credit_points u p (db w)))))
      with (balance (credit_points u p (db w))).
    split.
    + rewrite balance_credit, decide_True, Hb by done. done.
    + intros v Hv. rewrite balance_credit, decide_False by done. done.
  - intros Hno. rewrite (refund_due_None o Hno) in H. by rewrite H.
Qed.

(** ** Actions that do not invalidate views *)

Lemma silent_bind {A B} (m : M A) (f : A -> M B) :
  silent m -> (forall a, silent (f a)) -> silent (m ≫= f).
Proof.
  intros Hm Hf ctx w r w' H.
  apply bind_inv in H as [(a & w1 & H1 & H2) | (e & H1 & _)].
  - rewrite (Hf _ _ _ _ _ H2). eauto.
  - eauto.
Qed.

Lemma silent_ret {A} (a : A) : silent (mret a).
Proof. intros ctx w r w' H. unfold mret, M_ret in H. by simplify_eq. Qed.

Lemma silent_statement {A} (run : Tables -> A * Tables) : silent (statement run).
Proof.
  intros ctx w r w' H.
  apply statement_inv in H as [(m & _ & _ & ->) | (_ & _ & ->)]; done.
Qed.

Lemma silent_try_catch {A} (body : M A) handler :
  silent body -> (forall e, silent (handler e)) -> silent (try_catch body handler).
Proof.
  intros Hb Hh ctx w r w' H. unfold try_catch in H.
  destruct (body ctx w) as [[a|e] w1] eqn:E.
  - simplify_eq. eauto.
  - rewrite (Hh _ _ _ _ _ H). eauto.
Qed.

Lemma silent_transaction {A} (body : M A) : silent body -> silent (transaction body).
Proof.
  intros Hb ctx w r w' H. unfold transaction in H.
  match type of H with
  | context [?m ctx w] =>
      assert (silent m) as Hm
        by (repeat (apply silent_bind; intros); try apply silent_statement;
            try apply silent_ret; done);
      destruct (m ctx w) as [[a|e] w1] eqn:E; simplify_eq;
      apply Hm in E; done
  end.
Qed.

Lemma silent_for_of {A} (l : list A) (f : A -> M unit) :
  (forall x, silent (f x)) -> silent (for_of l f).
Proof.
  intros Hf. induction l as [|x l IH]; simpl.
  - apply silent_ret.
  - apply silent_bind; [apply Hf | done].
Qed.

Lemma silent_deleteOneOrder id : silent (deleteOneOrder id).
Proof.
  unfold deleteOneOrder, ensure_reservation_columns, exec, query.
  apply silent_bind; [apply silent_statement|]. intros [o|]; [|apply silent_ret].
  repeat (apply silent_bind; intros);
    repeat first [ apply silent_statement | apply silent_ret
                 | apply silent_try_catch; intros ].
  destruct (refund_due o) as [[u p]|]; [apply silent_statement | apply silent_ret].
Qed.

(** A statement whose failure is swallowed: it ran, or it did nothing. *)
Lemma best_effort_inv run ctx w :
  exists t, try_catch (exec run) (fun _ => mret tt) ctx w =
              (Ok tt, mkWorld t (revalidated w) (S (statements w))) /\
            (t = run (db w) \/ t = db w).
Proof.
  unfold try_catch, exec, statement, mret, M_ret.
  destruct (faults ctx (statements w)); simpl; eauto.
Qed.

(** The store after [deleteOneOrder] returned. *)
Lemma deleteOneOrder_Ok id ctx w w' :
  deleteOneOrder id ctx w = (Ok tt, w') ->
  match orders (db w) !! id with
  | None => db w' = db w
  | Some o =>
      let t := match refund_due o with
               | Some (u, p) => credit_points u p (db w)
               | None => db w
               end in
      db w' = delete_order id (delete_refundRequests id (release_cards id t)) \/
      db w' = delete_order id (release_cards id t)
  end.
Proof.
  unfold deleteOneOrder. intros H.
  apply bind_Ok in H as (order & w1 & Hq & H). step_ok.
  unfold findFirst_order in H.
  destruct (orders (db w) !! id) as [o|]; [|by step_ok].
  destruct (refund_due o) as [[u p]|]; repeat step_ok; simpl;
    match goal with
    | H : try_catch (exec ?run) _ ?ctx ?w = (Ok _, _) |- _ =>
        destruct (best_effort_inv run ctx w) as (t & E & [-> | ->]);
        rewrite E in H; simplify_eq; simpl; auto
    end.
Qed.

(** ** Failures leave the store and the views alone *)

Ltac split_bind H :=
  let K := fresh "K" in
  let a := fresh "a" in
  let w1 := fresh "w" in
  let e := fresh "e" in
  apply bind_inv in H as [(a & w1 & K & H) | (e & K & ?)].

(** Closes or simplifies the case in which a guard threw. *)
Ltac guard_threw :=
  match goal with
  | K : checkAdmin _ _ = (Throw _, _) |- _ =>
      apply checkAdmin_Throw in K as [-> (? & ? & ->)]
  | K : require_orderId _ _ _ = (Throw _, _) |- _ =>
      apply require_orderId_Throw in K as (-> & -> & ->)
  end.

Lemma cancelOrder_Throw id ctx w e w' :
  cancelOrder id ctx w = (Throw e, w') ->
  db w' = db w /\ revalidated w' = revalidated w.
Proof.
  unfold cancelOrder. intros H.
  split_bind H; [step_ok | by guard_threw].
  split_bind H; [step_ok | by guard_threw].
  split_bind H.
  - unfold mbind, M_bind, revalidatePath in H. simpl in H. discriminate.
  - match goal with K : transaction _ _ _ = _ |- _ => rename K into HT end.
    split; [by apply transaction_inv in HT|].
    revert HT. apply silent_transaction.
    unfold ensure_reservation_columns, exec, query.
    repeat (apply silent_bind; intros);
      repeat first [ apply silent_statement | apply silent_ret
                   | apply silent_try_catch; intros ].
    destruct (_ ≫= refund_due) as [[u p]|]; [apply silent_statement | apply silent_ret].
Qed.

Lemma deleteOrder_Throw id ctx w e w' :
  deleteOrder id ctx w = (Throw e, w') ->
  db w' = db w /\ revalidated w' = revalidated w.
Proof.
  unfold deleteOrder. intros H.
  split_bind H; [step_ok | by guard_threw].
  split_bind H; [step_ok | by guard_threw].
  split_bind H.
  - unfold mbind, M_bind, revalidatePath in H. simpl in H. discriminate.
  - match goal with K : transaction _ _ _ = _ |- _ => rename K into HT end.
    split; [by apply transaction_inv in HT|].
    revert HT. apply silent_transaction, silent_deleteOneOrder.
Qed.

Lemma deleteOrders_Throw ids ctx w e w' :
  deleteOrders ids ctx w = (Throw e, w') ->
  db w' = db w /\ revalidated w' = revalidated w.
Proof.
  unfold deleteOrders. intros H.
  split_bind H; [step_ok | by guard_threw].
  destruct (clean_ids ids) as [|x l]; [discriminate|].
  split_bind H.
  - unfold revalidatePath in H. discriminate.
  - match goal with K : transaction _ _ _ = _ |- _ => rename K into HT end.
    split; [by apply transaction_inv in HT|].
    revert HT. apply silent_transaction, silent_for_of, silent_deleteOneOrder.
Qed.

(** ** The batch *)

Lemma deleteOneOrder_orders id ctx w w' :
  deleteOneOrder id ctx w = (Ok tt, w') ->
  orders (db w') = delete id (orders (db w)).
Proof.
  intros H. apply deleteOneOrder_Ok in H.
  destruct (orders (db w) !! id) as [o|] eqn:E.
  - destruct H as [-> | ->]; simpl; by destruct (refund_due o) as [[]|].
  - rewrite H. symmetry. by apply delete_id.
Qed.

Lemma for_of_deleteOneOrder_orders ids ctx w w' k :
  for_of ids deleteOneOrder ctx w = (Ok tt, w') ->
  orders (db w') !! k = if decide (k ∈ ids) then None else orders (db w) !! k.
Proof.
  revert w. induction ids as [|y l IH]; simpl; intros w H.
  - step_ok. done.
  - apply bind_Ok in H as ([] & w1 & H1 & H).
    rewrite (IH _ H), (deleteOneOrder_orders _ _ _ _ H1).
    destruct (decide (k ∈ l)), (decide (k ∈ y :: l)) as [Hk|Hk]; try done.
    + exfalso. apply Hk. by right.
    + apply elem_of_cons in Hk as [-> | ?]; [apply lookup_delete_eq | done].
    + apply lookup_delete_ne. intros ->. apply Hk. by left.
Qed.

(** What a successful [deleteOrders] leaves in the orders table. *)
Lemma deleteOrders_Ok_orders ids ctx w w' k :
  deleteOrders ids ctx w = (Ok tt, w') ->
  orders (db w') !! k =
    if decide (k ∈ clean_ids ids) then None else orders (db w) !! k.
Proof.
  unfold deleteOrders. intros H. step_ok. step_ok.
  destruct (clean_ids ids) as [|y l] eqn:E.
  - step_ok. done.
  - repeat step_ok. simpl db.
    repeat match goal with u : unit |- _ => destruct u end.
    match goal with H : for_of _ _ _ _ = _ |- _ =>
      apply (for_of_deleteOneOrder_orders _ _ _ _ k) in H; simpl in H; apply H end.
Qed.

(** C2. [deleteOrders] is all-or-nothing over the batch: when processing
    any order fails, the store is exactly as before the call (the effects on
    every order of the batch are rolled back) and no view is invalidated;
    when it returns, every order of the batch is gone. *)
Theorem deleteOrders_atomic ids ctx w r w' :
  deleteOrders ids ctx w = (r, w') ->
  match r with
  | Throw _ => db w' = db w /\ revalidated w' = revalidated w
  | Ok _ => forall id, id ∈ clean_ids ids -> orders (db w') !! id = None
  end.
Proof.
  destruct r as [[]|e]; intros H.
  - intros id Hid. rewrite (deleteOrders_Ok_orders _ _ _ _ id H).
    by rewrite decide_True.
  - by apply deleteOrders_Throw in H.
Qed.

(** ** Releasing reserved cards *)

Lemma release_cards_lookup id t i :
  cards (release_cards id t) !! i =
    (fun c => if reserved_unused id c then clear_reservation c else c) <$> cards t !! i.
Proof. unfold release_cards; simpl. apply list_lookup_fmap. Qed.

Lemma reserved_unused_true id c :
  reserved_unused id c = true <-> reservedOrderId c = Some id /\ isUsed c = false.
Proof.
  unfold reserved_unused.
  rewrite andb_true_iff, bool_decide_eq_true, negb_true_iff. done.
Qed.

Lemma release_cards_releases id t t' :
  cards t' = cards (release_cards id t) -> releases id t t'.
Proof.
  intros E i c Hc Hr Hu. rewrite E, release_cards_lookup, Hc. simpl.
  rewrite (proj2 (reserved_unused_true id c)) by done.
  unfold clear_reservation. by rewrite Hu.
Qed.

Lemma release_cards_other id t i c :
  cards t !! i = Some c -> reserved_unused id c = false ->
  cards (release_cards id t) !! i = Some c.
Proof. intros Hc Hn. rewrite release_cards_lookup, Hc. simpl. by rewrite Hn. Qed.

Lemma deleteOneOrder_cards id ctx w w' :
  deleteOneOrder id ctx w = (Ok tt, w') ->
  cards (db w') =
    if orders (db w) !! id is Some _ then cards (release_cards id (db w))
    else cards (db w).
Proof.
  intros H. apply deleteOneOrder_Ok in H.
  destruct (orders (db w) !! id) as [o|]; [|by rewrite H].
  destruct H as [-> | ->]; simpl; by destruct (refund_due o) as [[]|].
Qed.

Lemma deleteOneOrder_card_kept id ctx w w' i c :
  deleteOneOrder id ctx w = (Ok tt, w') ->
  cards (db w) !! i = Some c -> reserved_unused id c = false ->
  cards (db w') !! i = Some c.
Proof.
  intros H Hc Hn. rewrite (deleteOneOrder_cards _ _ _ _ H).
  destruct (orders (db w) !! id); [by apply release_cards_other | done].
Qed.

(** A card that is used, or not reserved, goes through a batch untouched. *)
Lemma for_of_deleteOneOrder_card_kept ids ctx w w' i c :
  for_of ids deleteOneOrder ctx w = (Ok tt, w') ->
  cards (db w) !! i = Some c ->
  reservedOrderId c = None \/ isUsed c = true ->
  cards (db w') !! i = Some c.
Proof.
  revert w. induction ids as [|y l IH]; simpl; intros w H Hc Hn.
  - step_ok. done.
  - apply bind_Ok in H as ([] & w1 & H1 & H).
    apply (IH _ H); [|done].
    apply (deleteOneOrder_card_kept _ _ _ _ _ _ H1 Hc).
    unfold reserved_unused. destruct Hn as [-> | ->]; [done|].
    apply andb_false_r.
Qed.

Lemma for_of_deleteOneOrder_releases ids ctx w w' id :
  for_of ids deleteOneOrder ctx w = (Ok tt, w') ->
  id ∈ ids -> is_Some (orders (db w) !! id) ->
  releases id (db w) (db w').
Proof.
  revert w. induction ids as [|y l IH]; simpl; intros w H Hin [o Ho].
  - by apply elem_of_nil in Hin.
  - apply bind_Ok in H as ([] & w1 & H1 & H).
    intros i c Hc Hr Hu. destruct (decide (y = id)) as [-> | Hne].
    + apply (for_of_deleteOneOrder_card_kept _ _ _ _ _ _ H); [|by left].
      pose proof (deleteOneOrder_cards _ _ _ _ H1) as E. rewrite Ho in E.
      by apply (release_cards_releases _ _ _ E).
    + apply elem_of_cons in Hin as [-> | Hin]; [done|].
      apply (IH _ H Hin).
      * exists o. rewrite (deleteOneOrder_orders _ _ _ _ H1).
        by rewrite lookup_delete_ne.
      * apply (deleteOneOrder_card_kept _ _ _ _ _ _ H1 Hc).
        unfold reserved_unused. rewrite Hr, bool_decide_eq_false_2; [done|].
        congruence.
      * done.
      * done.
Qed.

Lemma cancelOrder_releases id ctx w w' :
  cancelOrder id ctx w = (Ok tt, w') -> releases id (db w) (db w').
Proof.
  intros H. apply cancelOrder_Ok in H. apply release_cards_releases.
  rewrite H. simpl. by destruct (_ ≫= refund_due) as [[]|].
Qed.

Lemma cancelOrder_keeps_used id ctx w r w' :
  cancelOrder id ctx w = (r, w') -> keeps_used (db w) (db w').
Proof.
  destruct r as [[]|e]; intros H i c Hc Hu.
  - apply cancelOrder_Ok in H. rewrite H.
    replace (cards _) with (cards (release_cards id (db w)))
      by (simpl; by destruct (_ ≫= refund_due) as [[]|]).
    apply release_cards_other; [done|].
    unfold reserved_unused. rewrite Hu. apply andb_false_r.
  - apply cancelOrder_Throw in H as [-> _]. done.
Qed.

Lemma deleteOrder_Ok id ctx w w' :
  deleteOrder id ctx w = (Ok tt, w') ->
  exists w0 w1, db w0 = db w /\ deleteOneOrder id ctx w0 = (Ok tt, w1) /\ db w' = db w1.
Proof.
  unfold deleteOrder. intros H. repeat step_ok.
  repeat match goal with u : unit |- _ => destruct u end.
  eexists _, _. split; [|split; [eassumption|]]; done.
Qed.

Lemma deleteOrders_Ok ids ctx w w' :
  deleteOrders ids ctx w = (Ok tt, w') ->
  exists w0 w1, db w0 = db w /\
    for_of (clean_ids ids) deleteOneOrder ctx w0 = (Ok tt, w1) /\ db w' = db w1.
Proof.
  unfold deleteOrders. intros H. step_ok. step_ok.
  destruct (clean_ids ids) as [|y l] eqn:E.
  - step_ok. exists w', w'. done.
  - repeat step_ok.
    repeat match goal with u : unit |- _ => destruct u end.
    eexists _, _. split; [|split; [eassumption|]]; done.
Qed.

(** ** Actions that leave the cards table alone *)

Lemma keeps_cards_bind {A B} (m : M A) (f : A -> M B) :
  keeps_cards m -> (forall a, keeps_cards (f a)) -> keeps_cards (m ≫= f).
Proof.
  intros Hm Hf ctx w r w' H.
  apply bind_inv in H as [(a & w1 & H1 & H2) | (e & H1 & _)].
  - rewrite (Hf _ _ _ _ _ H2). eauto.
  - eauto.
Qed.

Lemma keeps_cards_pure {A} (m : M A) :
  (forall ctx w, (m ctx w).2 = w) -> keeps_cards m.
Proof. intros Hm ctx w r w' H. specialize (Hm ctx w). rewrite H in Hm. by subst. Qed.

Lemma keeps_cards_statement {A} (run : Tables -> A * Tables) :
  (forall t, cards (run t).2 = cards t) -> keeps_cards (statement run).
Proof.
  intros Hrun ctx w r w' H.
  apply statement_inv in H as [(m & _ & _ & ->) | (_ & _ & ->)]; simpl; auto.
Qed.

Lemma keeps_cards_revalidatePath path : keeps_cards (revalidatePath path).
Proof. intros ctx w r w' H. unfold revalidatePath in H. by simplify_eq. Qed.

Lemma keeps_cards_try_catch {A} (body : M A) handler :
  keeps_cards body -> (forall e, keeps_cards (handler e)) ->
  keeps_cards (try_catch body handler).
Proof.
  intros Hb Hh ctx w r w' H. unfold try_catch in H.
  destruct (body ctx w) as [[a|e] w1] eqn:E.
  - simplify_eq. eauto.
  - rewrite (Hh _ _ _ _ _ H). eauto.
Qed.

Ltac keeps_cards_step :=
  first
    [ apply keeps_cards_bind; [|intros ?]
    | apply keeps_cards_revalidatePath
    | apply keeps_cards_try_catch; [|intros ?]
    | apply keeps_cards_statement; intros ?; reflexivity
    | apply keeps_cards_pure; intros ? ?;
      unfold checkAdmin, require_orderId, ask, mret, M_ret, throw, lift,
        fetch_json, mbind, M_bind;
      simpl; repeat case_match; reflexivity
    | case_match ].

Lemma keeps_cards_markOrderPaid id : keeps_cards (markOrderPaid id).
Proof. unfold markOrderPaid, exec. repeat keeps_cards_step. Qed.

Lemma keeps_cards_markOrderDelivered id : keeps_cards (markOrderDelivered id).
Proof. unfold markOrderDelivered, exec, query. repeat keeps_cards_step. Qed.

Lemma keeps_cards_updateOrderEmail id email : keeps_cards (updateOrderEmail id email).
Proof. unfold updateOrderEmail, exec. repeat keeps_cards_step. Qed.

Lemma keeps_cards_verifyOrderRefundStatus id : keeps_cards (verifyOrderRefundStatus id).
Proof.
  unfold verifyOrderRefundStatus, interpret_reply, exec.
  repeat keeps_cards_step.
Qed.

Lemma keeps_used_refl t : keeps_used t t.
Proof. by intros i c Hc _. Qed.

Lemma deleteOrder_keeps_used id ctx w r w' :
  deleteOrder id ctx w = (r, w') -> keeps_used (db w) (db w').
Proof.
  destruct r as [[]|e]; intros H.
  - apply deleteOrder_Ok in H as (w0 & w1 & E0 & H & ->).
    intros i c Hc Hu. rewrite <- E0 in Hc.
    apply (deleteOneOrder_card_kept _ _ _ _ _ _ H Hc).
    unfold reserved_unused. rewrite Hu. apply andb_false_r.
  - apply deleteOrder_Throw in H as [-> _]. apply keeps_used_refl.
Qed.

Lemma deleteOrders_keeps_used ids ctx w r w' :
  deleteOrders ids ctx w = (r, w') -> keeps_used (db w) (db w').
Proof.
  destruct r as [[]|e]; intros H.
  - apply deleteOrders_Ok in H as (w0 & w1 & E0 & H & ->).
    intros i c Hc Hu. rewrite <- E0 in Hc.
    apply (for_of_deleteOneOrder_card_kept _ _ _ _ _ _ H Hc). by right.
  - apply deleteOrders_Throw in H as [-> _]. apply keeps_used_refl.
Qed.

(** C3. The reservation invariant. Cancelling an order, or deleting an
    order that exists (alone or in a batch), clears the reservation of every
    unused card reserved for it; whatever their outcome, these operations
    leave every used card as it was; and the other actions never touch the
    cards table. *)
Theorem reservation_cleared_unless_used ctx w :
  (forall id w', cancelOrder id ctx w = (Ok tt, w') -> releases id (db w) (db w'))
  /\ (forall id w', deleteOrder id ctx w = (Ok tt, w') ->
        is_Some (orders (db w) !! id) -> releases id (db w) (db w'))
  /\ (forall ids id w', deleteOrders ids ctx w = (Ok tt, w') ->
        id ∈ clean_ids ids -> is_Some (orders (db w) !! id) ->
        releases id (db w) (db w'))
  /\ (forall r w',
        (exists id, cancelOrder id ctx w = (r, w') \/ deleteOrder id ctx w = (r, w'))
        \/ (exists ids, deleteOrders ids ctx w = (r, w')) ->
        keeps_used (db w) (db w'))
  /\ (forall id r w',
        markOrderPaid id ctx w = (r, w') \/ markOrderDelivered id ctx w = (r, w')
        \/ (exists email, updateOrderEmail id email ctx w = (r, w')) ->
        cards (db w') = cards (db w))
  /\ (forall id r w', verifyOrderRefundStatus id ctx w = (r, w') ->
        cards (db w') = cards (db w)).
Proof.
  repeat split.
  - intros id w'. apply cancelOrder_releases.
  - intros id w' H Ho.
    apply deleteOrder_Ok in H as (w0 & w1 & E0 & H & ->). rewrite <- E0 in *.
    apply (for_of_deleteOneOrder_releases [id] ctx w0 w1 id); [|by left|done].
    simpl. unfold mbind, M_bind. by rewrite H.
  - intros ids id w' H Hin Ho.
    apply deleteOrders_Ok in H as (w0 & w1 & E0 & H & ->). rewrite <- E0 in *.
    by apply (for_of_deleteOneOrder_releases _ _ _ _ _ H).
  - intros r w' [(id & [H | H]) | (ids & H)].
    + by apply cancelOrder_keeps_used in H.
    + by apply deleteOrder_keeps_used in H.
    + by apply deleteOrders_keeps_used in H.
  - intros id r w' [H | [H | (email & H)]].
    + by apply keeps_cards_markOrderPaid in H.
    + by apply keeps_cards_markOrderDelivered in H.
    + by apply keeps_cards_updateOrderEmail in H.
  - intros id r w'. apply keeps_cards_verifyOrderRefundStatus.
Qed.

(** ** Guards of the single-order actions *)

(** The case in which a statement was refused. *)
Ltac statement_threw :=
  match goal with
  | K : exec _ _ _ = (Throw _, _) |- _ => apply exec_Throw in K as ->
  | K : query _ _ _ = (Throw _, _) |- _ => apply query_Throw in K as ->
  end.

Lemma update_orders_missing set id t :
  orders t !! id = None -> update_orders set id t = t.
Proof.
  intros Hno. destruct t as [os cs us rs]; unfold update_orders; simpl in *.
  f_equal. apply map_eq. intros k. rewrite lookup_alter.
  case_decide; [subst k; by rewrite Hno | done].
Qed.

Lemma markOrderDelivered_Throw id ctx w e w' :
  markOrderDelivered id ctx w = (Throw e, w') ->
  db w' = db w /\ revalidated w' = revalidated w.
Proof.
  unfold markOrderDelivered. intros H.
  split_bind H; [step_ok | by guard_threw].
  split_bind H; [step_ok | by guard_threw].
  split_bind H; [step_ok | by statement_threw].
  unfold findFirst_order in H. destruct (orders (db w) !! id) as [o|].
  - destruct (no_cardKey o); [unfold throw in H; by simplify_eq|].
    split_bind H; [step_ok|discriminate].
    split_bind H; [step_ok | by statement_threw].
    unfold mbind, M_bind, revalidatePath in H. simpl in H. discriminate.
  - unfold throw in H. by simplify_eq.
Qed.

Lemma markOrderDelivered_NotFound ctx id w :
  rejection ctx = None -> id <> [] -> faults ctx (statements w) = None ->
  orders (db w) !! id = None ->
  markOrderDelivered id ctx w =
    (Throw NotFound, mkWorld (db w) (revalidated w) (S (statements w))).
Proof.
  intros Hadm Hid F Hno.
  unfold markOrderDelivered, mbind, M_bind, checkAdmin. rewrite Hadm.
  destruct id; [done|]. simpl. rewrite query_run by done.
  unfold findFirst_order. by rewrite Hno.
Qed.

(** C4. For an authorized caller, [markOrderDelivered] fails with
    InvalidArgument on an empty order id, with NotFound when the store holds
    no order with that id, and with PreconditionFailed when the order's
    card-key is null or empty; and whenever it fails, for whatever reason, the
    store (hence the order's status and [deliveredAt]) is as before and no
    view is invalidated. *)
Theorem markOrderDelivered_failures ctx id w :
  (rejection ctx = None -> id = [] ->
     markOrderDelivered id ctx w = (Throw InvalidArgument, w))
  /\ (rejection ctx = None -> id <> [] -> faults ctx (statements w) = None ->
      orders (db w) !! id = None ->
      markOrderDelivered id ctx w =
        (Throw NotFound, mkWorld (db w) (revalidated w) (S (statements w))))
  /\ (forall o, rejection ctx = None -> id <> [] ->
      faults ctx (statements w) = None ->
      orders (db w) !! id = Some o -> cardKey o = None \/ cardKey o = Some [] ->
      markOrderDelivered id ctx w =
        (Throw PreconditionFailed, mkWorld (db w) (revalidated w) (S (statements w))))
  /\ (forall e w', markOrderDelivered id ctx w = (Throw e, w') ->
      db w' = db w /\ revalidated w' = revalidated w).
Proof.
  split; [|split; [|split]].
  - intros Hadm ->. unfold markOrderDelivered, mbind, M_bind, checkAdmin.
    by rewrite Hadm.
  - apply markOrderDelivered_NotFound.
  - intros o Hadm Hid F Ho Hkey.
    unfold markOrderDelivered, mbind, M_bind, checkAdmin. rewrite Hadm.
    destruct id; [done|]. simpl. rewrite query_run by done.
    unfold findFirst_order. rewrite Ho. unfold no_cardKey.
    by destruct Hkey as [-> | ->].
  - intros e w'. apply markOrderDelivered_Throw.
Qed.

(** C9. On a non-empty id that matches no order, for an authorized caller
    and a store that accepts the statement: [markOrderPaid] and
    [updateOrderEmail] return normally, leave the store as it was and
    invalidate their views (three and two), whereas [markOrderDelivered]
    throws NotFound. *)
Theorem no_existence_check ctx id w :
  rejection ctx = None -> id <> [] ->
  faults ctx (statements w) = None ->
  orders (db w) !! id = None ->
  markOrderPaid id ctx w =
    (Ok tt, mkWorld (db w)
              (revalidated w ++
                 [js "/admin/orders"; js "/admin/orders/" ++ id; js "/order/" ++ id])
              (S (statements w)))
  /\ (forall email, updateOrderEmail id email ctx w =
        (Ok tt, mkWorld (db w)
                  (revalidated w ++ [js "/admin/orders"; js "/admin/orders/" ++ id])
                  (S (statements w))))
  /\ markOrderDelivered id ctx w =
       (Throw NotFound, mkWorld (db w) (revalidated w) (S (statements w))).
Proof.
  intros Hadm Hid F Hno. split; [|split].
  - unfold markOrderPaid, mbind, M_bind, checkAdmin, ask. rewrite Hadm.
    destruct id; [done|]. simpl. rewrite exec_run by done.
    unfold revalidatePath; simpl. rewrite update_orders_missing by done.
    by rewrite <- !app_assoc.
  - intros email.
    unfold updateOrderEmail, mbind, M_bind, checkAdmin. rewrite Hadm.
    destruct id; [done|]. simpl. rewrite exec_run by done.
    unfold revalidatePath; simpl. rewrite update_orders_missing by done.
    by rewrite <- !app_assoc.
  - by apply markOrderDelivered_NotFound.
Qed.

(** ** The batch of [deleteOrders] *)

Lemma truthy_true s : truthy s = true <-> s <> [].
Proof. by destruct s. Qed.

Lemma clean_ids_elem ids x :
  x ∈ clean_ids ids <-> x <> [] /\ exists s, s ∈ default [] ids /\ x = trim s.
Proof.
  unfold clean_ids.
  rewrite list_elem_of_In, filter_In, in_map_iff, truthy_true.
  split.
  - intros [(s & <- & Hs) Hne]. split; [done|]. exists s.
    by rewrite list_elem_of_In.
  - intros [Hne (s & Hs & ->)]. split; [|done]. exists s.
    by rewrite <- list_elem_of_In.
Qed.

Lemma clean_ids_nil ids :
  clean_ids ids = [] <-> forall s, s ∈ default [] ids -> trim s = [].
Proof.
  split.
  - intros E s Hs. destruct (trim s) as [|c r] eqn:Et; [done|].
    assert (trim s ∈ clean_ids ids) as Hin
      by (apply clean_ids_elem; split; [by rewrite Et | eauto]).
    rewrite E in Hin. by apply elem_of_nil in Hin.
  - intros Hall. destruct (clean_ids ids) as [|x l] eqn:E; [done|].
    assert (x ∈ clean_ids ids) as Hin by (rewrite E; by left).
    apply clean_ids_elem in Hin as [Hne (s & Hs & ->)].
    by rewrite (Hall s Hs) in Hne.
Qed.

(** C8. The batch is the list of the trimmed ids that are not empty; when
    it is empty, that is when every given id is blank (or there is none),
    [deleteOrders] sends nothing to the store and invalidates nothing: the
    world is left exactly as it was, and an authorized call returns
    normally. *)
Theorem deleteOrders_blank_noop ids ctx w :
  (forall x, x ∈ clean_ids ids <->
             x <> [] /\ exists s, s ∈ default [] ids /\ x = trim s)
  /\ ((forall s, s ∈ default [] ids -> trim s = []) ->
      (deleteOrders ids ctx w).2 = w /\
      (rejection ctx = None -> deleteOrders ids ctx w = (Ok tt, w))).
Proof.
  split; [intros x; apply clean_ids_elem|].
  intros Hblank. apply clean_ids_nil in Hblank.
  unfold deleteOrders, mbind, M_bind, checkAdmin. rewrite Hblank.
  destruct (rejection ctx); simpl; [done|]. split; [done|]. done.
Qed.

(** ** Refund verification *)

Lemma verifyOrderRefundStatus_configured ctx id w m k :
  authorized ctx -> id <> [] -> credentials ctx m k ->
  verifyOrderRefundStatus id ctx w =
    match gateway_reply ctx id m k with
    | Rejects e => (Ok (failure (JStr (message e))), w)
    | Json data =>
        match interpret_reply id data ctx w with
        | (Ok r, w') => (Ok r, w')
        | (Throw e, w') => (Ok (failure (JStr (message e))), w')
        end
    end.
Proof.
  intros Hadm Hid (Hm & Hmne & Hk & Hkne).
  unfold verifyOrderRefundStatus, mbind, M_bind, checkAdmin, ask, gateway_reply.
  rewrite Hadm. destruct id; [done|]. simpl. rewrite Hm, Hk. simpl.
  destruct m; [done|]. destruct k; [done|]. simpl.
  unfold try_catch, fetch_json, mbind, M_bind, ask.
  destruct (gateway ctx _ _); done.
Qed.

Lemma update_orders_lookup set id t :
  orders (update_orders set id t) !! id = set <$> orders t !! id.
Proof. unfold update_orders; simpl. rewrite lookup_alter. by rewrite decide_True. Qed.

(** C5. For an authorized caller, a non-empty order id and configured
    credentials: when the gateway answers an object with [code 1] and
    [status 0] and the store accepts the update, the order's status becomes
    [refunded], the admin list is invalidated and the result is
    [{success: true, status: 0, msg: "Refunded (Verified)"}]; when it answers
    [code 1] and [status 1], the world is left as it was and the result is
    [{success: true, status: 1, msg: "Paid (Not Refunded)"}]. *)
Theorem verify_refunded_and_paid ctx id w m k fields :
  authorized ctx -> id <> [] -> credentials ctx m k ->
  gateway_reply ctx id m k = Json (JObj fields) ->
  assoc (js "code") fields = Some (JNum 1) ->
  (assoc (js "status") fields = Some (JNum 0) ->
   faults ctx (statements w) = None ->
   exists w',
     verifyOrderRefundStatus id ctx w =
       (Ok (mkVerifyResult true (Some (JNum 0)) (Some (js "Refunded (Verified)")) None), w')
     /\ orders (db w') !! id = set_status refunded <$> orders (db w) !! id
     /\ (forall o, orders (db w) !! id = Some o ->
           status <$> orders (db w') !! id = Some refunded)
     /\ revalidated w' = revalidated w ++ [js "/admin/orders"])
  /\ (assoc (js "status") fields = Some (JNum 1) ->
      verifyOrderRefundStatus id ctx w =
        (Ok (mkVerifyResult true (Some (JNum 1)) (Some (js "Paid (Not Refunded)")) None), w)).
Proof.
  intros Hadm Hid Hcred Hreply Hcode.
  rewrite (verifyOrderRefundStatus_configured _ _ _ _ _ Hadm Hid Hcred), Hreply.
  unfold interpret_reply, mbind, M_bind, lift, get, mret, M_ret. rewrite Hcode. simpl.
  split; intros Hst; rewrite Hst; simpl; [|done].
  intros F. rewrite exec_run by done. unfold revalidatePath. cbn [db revalidated statements].
  eexists. split; [reflexivity|]. cbn [db revalidated statements].
  split; [apply update_orders_lookup|]. split; [|done].
  intros o Ho. by rewrite update_orders_lookup, Ho.
Qed.

Lemma interpret_reply_failure id data ctx w r w' :
  interpret_reply id data ctx w = (r, w') ->
  match r with
  | Ok res => success res = false -> w' = w /\ is_Some (error res)
  | Throw _ => db w' = db w /\ revalidated w' = revalidated w
  end.
Proof.
  unfold interpret_reply, mbind, M_bind, lift, throw, mret, M_ret, exec,
    statement, revalidatePath.
  intros H. repeat case_match; simplify_eq; simpl; try done; eauto.
Qed.

Lemma interpret_reply_not_success id data code ctx w :
  get data (js "code") = inr code -> strict_eq_num code 1 = false ->
  exists t, get data (js "msg") = inr t /\
    interpret_reply id data ctx w = (Ok (failure (failure_text t)), w).
Proof.
  intros Hc Hne. unfold interpret_reply, mbind, M_bind, lift, mret, M_ret.
  rewrite Hc, Hne.
  destruct data; simpl in Hc; try discriminate; simpl; eauto.
Qed.

(** C6, as amended. For an authorized caller, a non-empty order id and
    configured credentials, whatever the gateway and the store do,
    [verifyOrderRefundStatus] returns a result and throws nothing: a failing
    [fetch] or [json()] gives [{success: false, error: message}] and changes
    nothing; a parsed answer whose [code] is not 1 gives
    [{success: false, error: msg || "Query failed"}] and changes nothing; and
    every result with [success: false] carries an [error] and goes with an
    unchanged store and no invalidation. The three guards do throw: an
    unauthorized caller, an empty order id, missing credentials. *)
Theorem verify_structured ctx id w :
  (forall m k, authorized ctx -> id <> [] -> credentials ctx m k ->
     exists r w',
       verifyOrderRefundStatus id ctx w = (Ok r, w')
       /\ (forall e, gateway_reply ctx id m k = Rejects e ->
             r = failure (JStr (message e)) /\ w' = w)
       /\ (forall data code, gateway_reply ctx id m k = Json data ->
             get data (js "code") = inr code -> strict_eq_num code 1 = false ->
             exists t, get data (js "msg") = inr t /\
                       r = failure (failure_text t) /\ w' = w)
       /\ (success r = false ->
             is_Some (error r) /\ db w' = db w /\ revalidated w' = revalidated w))
  /\ (forall m, rejection ctx = Some m ->
        verifyOrderRefundStatus id ctx w = (Throw (Unauthorized m), w))
  /\ (authorized ctx -> id = [] ->
        verifyOrderRefundStatus id ctx w = (Throw InvalidArgument, w))
  /\ (authorized ctx -> id <> [] ->
      default [] (MERCHANT_ID ctx) = [] \/ default [] (MERCHANT_KEY ctx) = [] ->
        verifyOrderRefundStatus id ctx w = (Throw ConfigurationError, w)).
Proof.
  split; [|split; [|split]].
  - intros m k Hadm Hid Hcred.
    rewrite (verifyOrderRefundStatus_configured _ _ _ _ _ Hadm Hid Hcred).
    destruct (gateway_reply ctx id m k) as [e|data] eqn:Hreply.
    { eexists _, _. split; [reflexivity|]. split; [|split].
      - intros e' ?. by simplify_eq.
      - intros ? ? ?. discriminate.
      - intros _. simpl. eauto. }
    destruct (interpret_reply id data ctx w) as [[r|e] w'] eqn:Hrun.
    + eexists _, _. split; [reflexivity|]. split; [|split].
      * intros ? ?. discriminate.
      * intros data' code ? Hc Hne. simplify_eq.
        destruct (interpret_reply_not_success id data' code ctx w Hc Hne)
          as (t & Ht & E).
        rewrite E in Hrun. simplify_eq. eauto.
      * intros Hf. apply interpret_reply_failure in Hrun.
        destruct (Hrun Hf) as [-> ?]. done.
    + eexists _, _. split; [reflexivity|]. split; [|split].
      * intros ? ?. discriminate.
      * intros data' code ? Hc Hne. simplify_eq.
        destruct (interpret_reply_not_success id data' code ctx w Hc Hne)
          as (t & Ht & E).
        rewrite E in Hrun. discriminate.
      * intros _. apply interpret_reply_failure in Hrun as [? ?]. simpl. eauto.
  - intros m Hrej. unfold verifyOrderRefundStatus, mbind, M_bind, checkAdmin.
    by rewrite Hrej.
  - intros Hadm ->. unfold verifyOrderRefundStatus, mbind, M_bind, checkAdmin.
    by rewrite Hadm.
  - intros Hadm Hid Hmiss.
    unfold verifyOrderRefundStatus, mbind, M_bind, checkAdmin, ask.
    rewrite Hadm. destruct id; [done|]. simpl.
    destruct Hmiss as [-> | ->]; simpl; [done|].
    by rewrite orb_true_r.
Qed.

(** ** The status-query endpoint *)

Lemma startsWith_app p s : startsWith p (p ++ s) = true.
Proof. induction p as [|a p IH]; simpl; [done|]. by rewrite N.eqb_refl. Qed.

Lemma endsWith_app s p : endsWith (s ++ p) p = true.
Proof. unfold endsWith. rewrite rev_app_distr. apply startsWith_app. Qed.

Lemma replace_at s p r i :
  indexOf p s = Some i -> replace s p r = take i s ++ r ++ drop (i + length p) s.
Proof. unfold replace. by intros ->. Qed.

Lemma replace_absent s p r : indexOf p s = None -> replace s p r = s.
Proof. unfold replace. by intros ->. Qed.

(** Replacing a final occurrence that is also the first one. *)
Lemma replace_suffix dir p r :
  indexOf p (dir ++ p) = Some (length dir) -> replace (dir ++ p) p r = dir ++ r.
Proof.
  intros H. rewrite (replace_at _ _ _ _ H).
  rewrite take_app_length, drop_ge by (rewrite length_app; lia).
  by rewrite app_nil_r.
Qed.

(** C7, as amended. The status-query endpoint is derived from the
    submission endpoint: when the URL does not parse it is the fixed default
    [https://credit.linux.do/epay/api.php]; when it parses, it is protocol,
    host and the path in which the first [/pay/submit.php], then the first
    [/submit.php], is replaced by [/api.php], provided that ends in [api.php];
    and when it does not, it is [/epay/api.php] on the protocol and host of the
    configured URL. In particular a path [dir/pay/submit.php] or
    [dir/submit.php] whose only occurrence of the segment is the final one
    gives [dir/api.php]. *)
Theorem apiUrl_derivation parse payUrl :
  (parse payUrl = None -> derive_apiUrl parse payUrl = default_apiUrl)
  /\ (forall u, parse payUrl = Some u ->
        let derived := protocol u ++ js "//" ++ host u ++ api_pathname (pathname u) in
        (endsWith derived (js "api.php") = true ->
           derive_apiUrl parse payUrl = derived)
        /\ (endsWith derived (js "api.php") = false ->
           derive_apiUrl parse payUrl =
             protocol u ++ js "//" ++ host u ++ js "/epay/api.php"))
  /\ (forall u dir, parse payUrl = Some u ->
        pathname u = dir ++ js "/pay/submit.php" ->
        indexOf (js "/pay/submit.php") (pathname u) = Some (length dir) ->
        indexOf (js "/submit.php") (dir ++ js "/api.php") = None ->
        derive_apiUrl parse payUrl =
          protocol u ++ js "//" ++ host u ++ dir ++ js "/api.php")
  /\ (forall u dir, parse payUrl = Some u ->
        pathname u = dir ++ js "/submit.php" ->
        indexOf (js "/pay/submit.php") (pathname u) = None ->
        indexOf (js "/submit.php") (pathname u) = Some (length dir) ->
        derive_apiUrl parse payUrl =
          protocol u ++ js "//" ++ host u ++ dir ++ js "/api.php").
Proof.
  assert (forall a b d : jstring,
            endsWith (a ++ js "//" ++ b ++ d ++ js "/api.php") (js "api.php") = true)
    as Hends.
  { intros a b d. change (js "/api.php") with (js "/" ++ js "api.php").
    rewrite !app_assoc. apply endsWith_app. }
  split; [|split; [|split]].
  - intros Hp. unfold derive_apiUrl. by rewrite Hp.
  - intros u Hp derived. unfold derive_apiUrl. rewrite Hp. fold derived.
    split; intros ->; done.
  - intros u dir Hp Hpath H1 H2. unfold derive_apiUrl. rewrite Hp.
    unfold api_pathname. rewrite Hpath in *.
    rewrite (replace_suffix _ _ _ H1), (replace_absent _ _ _ H2).
    by rewrite Hends.
  - intros u dir Hp Hpath H1 H2. unfold derive_apiUrl. rewrite Hp.
    unfold api_pathname. rewrite (replace_absent _ _ _ H1).
    rewrite Hpath in *. rewrite (replace_suffix _ _ _ H2).
    by rewrite Hends.
Qed.

(** ** The shop logo *)

Import ShopLogo.

Lemma or_else_nil_r s : or_else s [] = s.
Proof. by destruct s. Qed.

Lemma or_else_truthy a b : a <> [] -> or_else a b = a.
Proof. by destruct a. Qed.

(** C10. The image source of [ShopLogo] is the trimmed logo when that is not
    empty and the favicon otherwise; the favicon is [origin/favicon.ico] when
    [url] parses and the empty string when it does not; the image is shown
    exactly when the source is not empty and no load error occurred, and
    otherwise (also after [onError]) the fallback letter is rendered: the
    first code unit of the trimmed name, or [L] when the name is missing,
    empty or blank. *)
Theorem ShopLogo_source_and_fallback parse p :
  let l := trim (default [] (logo p)) in
  let s := src parse (url p) (logo p) in
  (l <> [] -> s = l)
  /\ (l = [] -> s = getFaviconUrl parse (url p))
  /\ (forall u, parse (url p) = Some u ->
        getFaviconUrl parse (url p) = origin u ++ js "/favicon.ico")
  /\ (parse (url p) = None -> getFaviconUrl parse (url p) = [])
  /\ (forall error, s <> [] -> error = false ->
        child (render parse p error) = Img s (name p))
  /\ (forall error, s = [] \/ error = true ->
        child (render parse p error) = Letter (fallbackLetter (name p)))
  /\ (forall error,
        child (render parse p (onError error)) = Letter (fallbackLetter (name p)))
  /\ (forall n c rest, name p = Some n -> trim n = c :: rest ->
        fallbackLetter (name p) = [c])
  /\ (name p = None \/ (exists n, name p = Some n /\ trim n = []) ->
        fallbackLetter (name p) = js "L").
Proof.
  intros l s. unfold s, src. rewrite or_else_nil_r. fold l.
  split; [|split; [|split; [|split; [|split; [|split; [|split; [|split]]]]]]].
  - apply or_else_truthy.
  - by intros ->.
  - intros u Hu. unfold getFaviconUrl. by rewrite Hu.
  - intros Hu. unfold getFaviconUrl. by rewrite Hu.
  - intros error Hs ->. unfold render, src. rewrite or_else_nil_r. fold l.
    simpl. destruct (or_else l _); done.
  - intros error Hs. unfold render, src. rewrite or_else_nil_r. fold l.
    simpl. destruct Hs as [-> | ->]; [done|]. by rewrite andb_false_r.
  - intros error. unfold render, onError. simpl. by rewrite andb_false_r.
  - intros n c rest -> Hn. unfold fallbackLetter. by rewrite Hn.
  - intros [-> | (n & -> & Hn)]; unfold fallbackLetter; [done|]. by rewrite Hn.
Qed.

(** ** Worked instances *)

Lemma cancelOrder_points_witness :
  balance (db (cancelOrder (js "A") Sample.ctx Sample.world).2) (js "u1") = Some 15.
Proof.
  refine (proj1 (proj1 (cancelOrder_points Sample.ctx (js "A") Sample.world
            (cancelOrder (js "A") Sample.ctx Sample.world).2 Sample.orderA _ _)
          (js "u1") 5 10 _ _ _ _ _));
    try (vm_compute; reflexivity); try (vm_compute; discriminate).
Defined.

Lemma deleteOrders_atomic_witness :
  let run := deleteOrders (Some [js "A"; js " B "])
               (Sample.ctx_with Sample.refunded_reply (Sample.only 11)) Sample.world in
  run.1 = Throw (DriverError (js "connection lost"))
  /\ db run.2 = Sample.tables /\ revalidated run.2 = [].
Proof.
  split; [vm_compute; reflexivity|].
  apply (deleteOrders_atomic (Some [js "A"; js " B "])
           (Sample.ctx_with Sample.refunded_reply (Sample.only 11)) Sample.world
           (Throw (DriverError (js "connection lost")))).
  vm_compute; reflexivity.
Defined.

Lemma reservation_cleared_unless_used_witness :
  let w' := (cancelOrder (js "A") Sample.ctx Sample.world).2 in
  cards (db w') !! 0%nat = Some (mkCard 1 false None None)
  /\ cards (db w') !! 1%nat = Some Sample.card2.
Proof.
  intros w'.
  pose proof (reservation_cleared_unless_used Sample.ctx Sample.world)
    as (Hcancel & _ & _ & Hused & _).
  assert (cancelOrder (js "A") Sample.ctx Sample.world = (Ok tt, w')) as Hrun
    by (vm_compute; reflexivity).
  split.
  - apply (Hcancel (js "A") w' Hrun 0%nat Sample.card1); reflexivity.
  - apply (Hused (Ok tt) w'); [|reflexivity..].
    left. exists (js "A"). by left.
Defined.

Lemma markOrderDelivered_failures_witness :
  markOrderDelivered (js "B") Sample.ctx Sample.world =
    (Throw PreconditionFailed, mkWorld Sample.tables [] 1).
Proof.
  apply (proj1 (proj2 (proj2 (markOrderDelivered_failures Sample.ctx (js "B") Sample.world)))
           Sample.orderB); try (vm_compute; reflexivity).
  - vm_compute; discriminate.
  - by left.
Defined.

Lemma verify_refunded_and_paid_witness :
  exists w',
    verifyOrderRefundStatus (js "A") Sample.ctx Sample.world =
      (Ok (mkVerifyResult true (Some (JNum 0)) (Some (js "Refunded (Verified)")) None), w')
    /\ status <$> orders (db w') !! js "A" = Some refunded.
Proof.
  destruct (proj1 (verify_refunded_and_paid Sample.ctx (js "A") Sample.world
              (js "1001") (js "secret")
              [(js "code", JNum 1); (js "status", JNum 0)]
              eq_refl ltac:(vm_compute; discriminate)
              ltac:(repeat split; vm_compute; (reflexivity || discriminate))
              ltac:(vm_compute; reflexivity) ltac:(vm_compute; reflexivity))
            ltac:(vm_compute; reflexivity) eq_refl)
    as (w' & Hrun & _ & Hst & _).
  exists w'. split; [exact Hrun|].
  apply (Hst Sample.orderA). vm_compute; reflexivity.
Defined.

Lemma verify_structured_witness :
  exists w',
    verifyOrderRefundStatus (js "A")
      (Sample.ctx_with Sample.bad_pid_reply Sample.never) Sample.world =
      (Ok (failure (JStr (js "bad pid"))), w') /\ w' = Sample.world.
Proof.
  destruct (proj1 (verify_structured
                     (Sample.ctx_with Sample.bad_pid_reply Sample.never)
                     (js "A") Sample.world)
              (js "1001") (js "secret") eq_refl ltac:(vm_compute; discriminate)
              ltac:(repeat split; vm_compute; (reflexivity || discriminate)))
    as (r & w' & Hrun & _ & Hcode & _).
  destruct (Hcode _ (JNum 0) eq_refl ltac:(vm_compute; reflexivity) eq_refl)
    as (t & Ht & -> & ->).
  exists Sample.world. split; [|reflexivity].
  rewrite Hrun. vm_compute in Ht. by simplify_eq.
Defined.

(** C6, the claim as stated fails: with an empty order id the action throws. *)
Lemma verify_raises_on_empty_id :
  verifyOrderRefundStatus [] Sample.ctx Sample.world =
    (Throw (Error (js "Missing order id")), Sample.world)
  /\ ~ (forall ctx id w, exists r w', verifyOrderRefundStatus id ctx w = (Ok r, w')).
Proof.
  split; [vm_compute; reflexivity|].
  intros H. destruct (H Sample.ctx [] Sample.world) as (r & w' & Hrun).
  vm_compute in Hrun. discriminate.
Qed.

Lemma apiUrl_derivation_witness :
  derive_apiUrl Sample.parse (js "https://credit.linux.do/epay/pay/submit.php") =
    js "https://credit.linux.do/epay/api.php".
Proof.
  apply (proj1 (proj2 (proj2 (apiUrl_derivation Sample.parse
           (js "https://credit.linux.do/epay/pay/submit.php"))))
           _ (js "/epay") eq_refl); vm_compute; reflexivity.
Defined.

(** C7, the claim as stated fails: a submission endpoint whose path holds no
    submission segment sends the query to [/epay/api.php] on its own host, not
    to the fixed default. *)
Lemma fallback_keeps_configured_host :
  derive_apiUrl Sample.parse (js "https://pay.example.com/gateway") =
    js "https://pay.example.com/epay/api.php"
  /\ ~ (forall (parse : url_parser) payUrl u, parse payUrl = Some u ->
          endsWith (protocol u ++ js "//" ++ host u ++ api_pathname (pathname u))
            (js "api.php") = false ->
          derive_apiUrl parse payUrl = default_apiUrl).
Proof.
  split; [vm_compute; reflexivity|].
  intros H.
  specialize (H Sample.parse (js "https://pay.example.com/gateway") _ eq_refl eq_refl).
  vm_compute in H. discriminate.
Qed.

Lemma deleteOrders_blank_noop_witness :
  deleteOrders (Some [js " "; js ""]) Sample.ctx Sample.world = (Ok tt, Sample.world)
  /\ deleteOrders (Some []) Sample.ctx Sample.world = (Ok tt, Sample.world)
  /\ deleteOrders None Sample.ctx Sample.world = (Ok tt, Sample.world).
Proof.
  assert (forall ids, clean_ids ids = [] ->
            forall s, s ∈ default [] ids -> trim s = []) as Hblank.
  { intros ids E. by apply clean_ids_nil. }
  split; [|split];
    apply (proj2 (deleteOrders_blank_noop _ Sample.ctx Sample.world));
    try reflexivity; apply Hblank; vm_compute; reflexivity.
Defined.

Lemma no_existence_check_witness :
  markOrderPaid (js "Z") Sample.ctx Sample.world =
    (Ok tt, mkWorld Sample.tables
              [js "/admin/orders"; js "/admin/orders/Z"; js "/order/Z"] 1).
Proof.
  apply (proj1 (no_existence_check Sample.ctx (js "Z") Sample.world
                  eq_refl ltac:(vm_compute; discriminate) eq_refl
                  ltac:(vm_compute; reflexivity))).
Defined.

Lemma ShopLogo_source_and_fallback_witness :
  let p := mkProps (Some (js "  shop ")) (js "https://shop.example.com/store?x=1")
             (Some (js "  ")) in
  child (render Sample.parse p initial_error) =
    Img (js "https://shop.example.com/favicon.ico") (Some (js "  shop "))
  /\ child (render Sample.parse p (onError false)) = Letter (js "s").
Proof.
  intros p.
  pose proof (ShopLogo_source_and_fallback Sample.parse p)
    as (_ & _ & _ & _ & Himg & _ & Herr & Hfirst & _).
  split.
  - rewrite (Himg initial_error ltac:(vm_compute; discriminate) eq_refl).
    vm_compute; reflexivity.
  - rewrite (Herr false).
    rewrite (Hfirst (js "  shop ") 115%N (js "hop") eq_refl ltac:(vm_compute; reflexivity)).
    vm_compute; reflexivity.
Defined.

(** * Further properties *)

(** ** Trimming *)

Lemma trimStart_head (s : jstring) (c : N) (r : jstring) : trimStart s = c :: r -> is_ws c = false.
Proof.
  induction s as [|a s IH]; simpl; [done|].
  destruct (is_ws a) eqn:E; [done|]. intros ?; by simplify_eq.
Qed.

Lemma trimStart_fixed (s : jstring) :
  (forall (c : N) (r : jstring), s = c :: r -> is_ws c = false) -> trimStart s = s.
Proof. destruct s as [|a s]; simpl; [done|]. intros H. by rewrite (H a s). Qed.

Lemma trimStart_snoc (l : jstring) (c : N) :
  is_ws c = false -> exists l', trimStart (l ++ [c]) = l' ++ [c].
Proof.
  intros Hc. induction l as [|a l IH]; simpl.
  - rewrite Hc. by exists [].
  - destruct (is_ws a); [done|]. by exists (a :: l).
Qed.

Lemma trimEnd_last (s r : jstring) (c : N) : trimEnd s = r ++ [c] -> is_ws c = false.
Proof.
  unfold trimEnd. intros H.
  apply (f_equal (@rev N)) in H. rewrite rev_involutive, rev_app_distr in H.
  simpl in H. by apply trimStart_head in H.
Qed.

Lemma trimEnd_head (c : N) (t : jstring) :
  is_ws c = false -> exists t', trimEnd (c :: t) = c :: t'.
Proof.
  intros Hc. unfold trimEnd. simpl.
  destruct (trimStart_snoc (rev t) c Hc) as (l' & ->).
  rewrite rev_app_distr. simpl. eauto.
Qed.

Lemma trim_edge_clean (s : jstring) : edge_clean (trim s).
Proof.
  unfold trim. split.
  - intros c r H. destruct (trimStart s) as [|a t] eqn:E.
    + vm_compute in H. discriminate.
    + pose proof (trimStart_head _ _ _ E) as Ha.
      destruct (trimEnd_head a t Ha) as (t' & E'). rewrite E' in H.
      by simplify_eq.
  - intros r c H. by apply trimEnd_last in H.
Qed.

Lemma trim_fixed (s : jstring) : edge_clean s -> trim s = s.
Proof.
  intros [Hh Hl]. unfold trim. rewrite (trimStart_fixed s Hh).
  unfold trimEnd. rewrite trimStart_fixed; [apply rev_involutive|].
  intros c r H. apply (Hl (rev r) c).
  rewrite <- (rev_involutive s), H. done.
Qed.

Lemma trim_idempotent (s : jstring) : trim (trim s) = trim s.
Proof. apply trim_fixed, trim_edge_clean. Qed.

Lemma trim_blank (s : jstring) : forallb is_ws s = true -> trim s = [].
Proof.
  intros H. unfold trim.
  assert (trimStart s = []) as ->; [|done].
  induction s as [|a s IH]; simpl in *; [done|].
  apply andb_true_iff in H as [-> H]. auto.
Qed.

(** ** The ids of a batch and the stored email *)

Lemma clean_ids_fixed (l : list jstring) :
  Forall (fun x => x <> [] /\ edge_clean x) l -> clean_ids (Some l) = l.
Proof.
  unfold clean_ids. simpl. induction 1 as [|x l [Hne Hc] _ IH]; simpl; [done|].
  rewrite (trim_fixed x Hc). destruct x; [done|]. simpl. by rewrite IH.
Qed.

Lemma clean_ids_Forall ids :
  Forall (fun x => x <> [] /\ edge_clean x) (clean_ids ids).
Proof.
  apply Forall_forall. intros x Hx. apply clean_ids_elem in Hx as [Hne (s & _ & ->)].
  split; [done | apply trim_edge_clean].
Qed.

(** X1. The batch [deleteOrders] works on holds only ids that are not empty
    and have no white space at either end; a list of such ids is taken as it
    is, in order and with its repetitions (nothing is deduplicated), so
    cleaning twice is cleaning once; and the batch is never longer than the
    given list. *)
Theorem clean_ids_normalized ids :
  Forall (fun x => x <> [] /\ edge_clean x) (clean_ids ids)
  /\ (forall l, Forall (fun x => x <> [] /\ edge_clean x) l -> clean_ids (Some l) = l)
  /\ clean_ids (Some (clean_ids ids)) = clean_ids ids
  /\ (length (clean_ids ids) <= length (default [] ids))%nat.
Proof.
  split; [apply clean_ids_Forall|]. split; [apply clean_ids_fixed|]. split.
  - apply clean_ids_fixed, clean_ids_Forall.
  - unfold clean_ids. etransitivity; [apply filter_length_le|].
    by rewrite length_map.
Qed.

Lemma clean_ids_normalized_witness :
  clean_ids (Some [js "A"; js "B"; js "A"]) = [js "A"; js "B"; js "A"].
Proof.
  apply (proj1 (proj2 (clean_ids_normalized None))).
  repeat (constructor;
          [split; [vm_compute; discriminate
                  | first [exact (trim_edge_clean (js "A"))
                          | exact (trim_edge_clean (js "B"))]]|]).
  constructor.
Defined.

(** X2. The email [updateOrderEmail] stores is null exactly when the given
    one is null or blank, and is otherwise the given one trimmed: not empty,
    without white space at either end; normalizing a stored email again
    changes nothing. *)
Theorem normalize_email_spec email :
  match normalize_email email with
  | None => email = None \/ exists s, email = Some s /\ trim s = []
  | Some e => e <> [] /\ edge_clean e /\ exists s, email = Some s /\ e = trim s
  end
  /\ normalize_email (normalize_email email) = normalize_email email.
Proof.
  unfold normalize_email. destruct email as [s|]; simpl; [|by split; [left|]].
  rewrite or_else_nil_r. destruct (trim s) as [|c r] eqn:E; simpl.
  - split; [right; eauto | done].
  - split.
    + split; [done|]. split; [rewrite <- E; apply trim_edge_clean | eauto].
    + rewrite or_else_nil_r, <- E, trim_idempotent, E. done.
Qed.

(** ** What the single-order updates write *)

Lemma update_orders_other set id t : other_orders_kept id t (update_orders set id t).
Proof. intros k Hk. unfold update_orders; simpl. by rewrite lookup_alter_ne. Qed.

Lemma markOrderPaid_Ok id ctx w w' :
  markOrderPaid id ctx w = (Ok tt, w') ->
  authorized ctx /\ id <> [] /\
  w' = mkWorld (update_orders (set_paid (now ctx)) id (db w))
         (revalidated w ++
            [js "/admin/orders"; js "/admin/orders/" ++ id; js "/order/" ++ id])
         (S (statements w)).
Proof.
  unfold markOrderPaid. intros H. repeat step_ok. cbn [db revalidated statements].
  by rewrite <- !app_assoc.
Qed.

Lemma markOrderDelivered_Ok id ctx w w' :
  markOrderDelivered id ctx w = (Ok tt, w') ->
  authorized ctx /\ id <> [] /\
  (exists o, orders (db w) !! id = Some o /\ no_cardKey o = false) /\
  w' = mkWorld (update_orders (set_delivered (now ctx)) id (db w))
         (revalidated w ++
            [js "/admin/orders"; js "/admin/orders/" ++ id; js "/order/" ++ id])
         (S (S (statements w))).
Proof.
  unfold markOrderDelivered. intros H. repeat step_ok.
  unfold findFirst_order in H. cbn [db] in H.
  destruct (orders (db w) !! id) as [o|] eqn:Ho; [|discriminate].
  destruct (no_cardKey o) eqn:Hk; [discriminate|].
  repeat step_ok. cbn [db revalidated statements].
  rewrite <- !app_assoc. eauto 10.
Qed.

Lemma updateOrderEmail_Ok id email ctx w w' :
  updateOrderEmail id email ctx w = (Ok tt, w') ->
  authorized ctx /\ id <> [] /\
  w' = mkWorld (update_orders (set_email (normalize_email email)) id (db w))
         (revalidated w ++ [js "/admin/orders"; js "/admin/orders/" ++ id])
         (S (statements w)).
Proof.
  unfold updateOrderEmail. intros H. repeat step_ok. cbn [db revalidated statements].
  by rewrite <- !app_assoc.
Qed.

(** X3. When [markOrderPaid] returns, the caller was authorized and the id not
    empty; the order with that id, whatever its status was, is now [paid] with
    [paidAt] the time of the call and its other fields as before; no other
    order and no other table changed; and the admin list, the admin detail
    and the public order page were invalidated, in that order. *)
Theorem markOrderPaid_effect id ctx w w' :
  markOrderPaid id ctx w = (Ok tt, w') ->
  authorized ctx /\ id <> []
  /\ (forall o, orders (db w) !! id = Some o ->
        orders (db w') !! id =
          Some (mkOrder paid (Some (now ctx)) (deliveredAt o) (userId o)
                  (pointsUsed o) (email o) (cardKey o)))
  /\ other_orders_kept id (db w) (db w')
  /\ other_tables_kept (db w) (db w')
  /\ revalidated w' =
       revalidated w ++
         [js "/admin/orders"; js "/admin/orders/" ++ id; js "/order/" ++ id].
Proof.
  intros H. apply markOrderPaid_Ok in H as (Hadm & Hid & ->).
  cbn [db revalidated]. repeat split; try done.
  - intros o Ho. by rewrite update_orders_lookup, Ho.
  - apply update_orders_other.
Qed.

(** X4. When [markOrderDelivered] returns, the order existed and had a card
    key that is neither null nor empty; it is now [delivered] with
    [deliveredAt] the time of the call and its other fields as before; no
    other order and no other table changed; and the three views were
    invalidated. *)
Theorem markOrderDelivered_effect id ctx w w' :
  markOrderDelivered id ctx w = (Ok tt, w') ->
  (exists o key, orders (db w) !! id = Some o /\ cardKey o = Some key /\ key <> []
     /\ orders (db w') !! id =
          Some (mkOrder delivered (paidAt o) (Some (now ctx)) (userId o)
                  (pointsUsed o) (email o) (cardKey o)))
  /\ other_orders_kept id (db w) (db w')
  /\ other_tables_kept (db w) (db w')
  /\ revalidated w' =
       revalidated w ++
         [js "/admin/orders"; js "/admin/orders/" ++ id; js "/order/" ++ id].
Proof.
  intros H. apply markOrderDelivered_Ok in H as (Hadm & Hid & (o & Ho & Hk) & ->).
  cbn [db revalidated]. repeat split; try done.
  - unfold no_cardKey in Hk. destruct (cardKey o) as [[|c key]|] eqn:Ek; try done.
    exists o, (c :: key). repeat split; try done.
    rewrite update_orders_lookup, Ho. simpl. unfold set_delivered. by rewrite Ek.
  - apply update_orders_other.
Qed.

(** X5. When [updateOrderEmail] returns, the order with that id, if there is
    one, carries the normalized email and its other fields as before; no other
    order and no other table changed; and the admin list and the admin detail
    were invalidated, the public order page was not. *)
Theorem updateOrderEmail_effect id given ctx w w' :
  updateOrderEmail id given ctx w = (Ok tt, w') ->
  authorized ctx /\ id <> []
  /\ (forall o, orders (db w) !! id = Some o ->
        orders (db w') !! id =
          Some (mkOrder (status o) (paidAt o) (deliveredAt o) (userId o)
                  (pointsUsed o) (normalize_email given) (cardKey o)))
  /\ other_orders_kept id (db w) (db w')
  /\ other_tables_kept (db w) (db w')
  /\ revalidated w' = revalidated w ++ [js "/admin/orders"; js "/admin/orders/" ++ id]
  /\ js "/order/" ++ id ∉ [js "/admin/orders"; js "/admin/orders/" ++ id].
Proof.
  intros H. apply updateOrderEmail_Ok in H as (Hadm & Hid & ->).
  cbn [db revalidated]. repeat split; try done.
  - intros o Ho. by rewrite update_orders_lookup, Ho.
  - apply update_orders_other.
  - intros Hin. apply elem_of_cons in Hin as [Hin | Hin].
    + vm_compute in Hin. discriminate.
    + apply list_elem_of_singleton in Hin. vm_compute in Hin. discriminate.
Qed.

(** ** Guards and failures *)

(** X6. When the authorization gate rejects the caller, each of the seven
    actions throws what the gate threw and leaves the world exactly as it
    was: nothing is sent to the store, no view is invalidated and the
    gateway's answer plays no part. *)
Theorem unauthorized_no_effect ctx w m :
  rejection ctx = Some m ->
  (forall id, markOrderPaid id ctx w = (Throw (Unauthorized m), w))
  /\ (forall id, markOrderDelivered id ctx w = (Throw (Unauthorized m), w))
  /\ (forall id, cancelOrder id ctx w = (Throw (Unauthorized m), w))
  /\ (forall id email, updateOrderEmail id email ctx w = (Throw (Unauthorized m), w))
  /\ (forall id, deleteOrder id ctx w = (Throw (Unauthorized m), w))
  /\ (forall ids, deleteOrders ids ctx w = (Throw (Unauthorized m), w))
  /\ (forall id, verifyOrderRefundStatus id ctx w = (Throw (Unauthorized m), w)).
Proof.
  intros Hrej.
  repeat split; intros;
    unfold markOrderPaid, markOrderDelivered, cancelOrder, updateOrderEmail,
      deleteOrder, deleteOrders, verifyOrderRefundStatus, mbind, M_bind, checkAdmin;
    by rewrite Hrej.
Qed.

(** X7. For an authorized caller, [markOrderPaid], [cancelOrder],
    [updateOrderEmail] and [deleteOrder] refuse an empty order id with
    "Missing order id" before anything is sent to the store: the world is
    exactly as it was. *)
Theorem empty_orderId_refused ctx w :
  authorized ctx ->
  markOrderPaid [] ctx w = (Throw (Error (js "Missing order id")), w)
  /\ cancelOrder [] ctx w = (Throw (Error (js "Missing order id")), w)
  /\ (forall email,
        updateOrderEmail [] email ctx w = (Throw (Error (js "Missing order id")), w))
  /\ deleteOrder [] ctx w = (Throw (Error (js "Missing order id")), w).
Proof.
  intros Hadm.
  repeat split; intros;
    unfold markOrderPaid, cancelOrder, updateOrderEmail, deleteOrder,
      mbind, M_bind, checkAdmin;
    by rewrite Hadm.
Qed.

Lemma markOrderPaid_Throw id ctx w e w' :
  markOrderPaid id ctx w = (Throw e, w') ->
  db w' = db w /\ revalidated w' = revalidated w.
Proof.
  unfold markOrderPaid. intros H.
  split_bind H; [step_ok | by guard_threw].
  split_bind H; [step_ok | by guard_threw].
  split_bind H; [step_ok | discriminate].
  split_bind H; [step_ok | by statement_threw].
  unfold mbind, M_bind, revalidatePath in H. simpl in H. discriminate.
Qed.

Lemma updateOrderEmail_Throw id email ctx w e w' :
  updateOrderEmail id email ctx w = (Throw e, w') ->
  db w' = db w /\ revalidated w' = revalidated w.
Proof.
  unfold updateOrderEmail. intros H.
  split_bind H; [step_ok | by guard_threw].
  split_bind H; [step_ok | by guard_threw].
  split_bind H; [step_ok | by statement_threw].
  unfold mbind, M_bind, revalidatePath in H. simpl in H. discriminate.
Qed.

(** X8. Whenever [markOrderPaid], [updateOrderEmail], [cancelOrder] or
    [deleteOrder] throws, for whatever reason (the gate, the id, a statement
    the store refuses, a failed commit), the store is as before the call and
    no view has been invalidated: for the two transactional actions, a
    refusal in the middle leaves no partial effect. *)
Theorem failure_leaves_no_trace ctx w e w' :
  (exists id, markOrderPaid id ctx w = (Throw e, w')
              \/ cancelOrder id ctx w = (Throw e, w')
              \/ deleteOrder id ctx w = (Throw e, w')
              \/ exists email, updateOrderEmail id email ctx w = (Throw e, w')) ->
  db w' = db w /\ revalidated w' = revalidated w.
Proof.
  intros (id & [H | [H | [H | (email & H)]]]).
  - by apply markOrderPaid_Throw in H.
  - by apply cancelOrder_Throw in H.
  - by apply deleteOrder_Throw in H.
  - by apply updateOrderEmail_Throw in H.
Qed.

(** ** Cancelling and deleting one order *)





(** X10. [cancelOrder] does not look at the status of the order: cancelling
    an order a second time credits its points a second time. After two
    cancellations of an order with owner [u] and [pointsUsed = p > 0], the
    balance of [u] is its starting balance plus twice [p]. *)
Theorem cancelOrder_twice_refunds_twice id ctx1 ctx2 w w1 w2 o u p b :
  cancelOrder id ctx1 w = (Ok tt, w1) ->
  cancelOrder id ctx2 w1 = (Ok tt, w2) ->
  orders (db w) !! id = Some o ->
  userId o = Some u -> u <> [] -> pointsUsed o = Some p -> 0 < p ->
  balance (db w) u = Some b ->
  status <$> orders (db w1) !! id = Some cancelled
  /\ balance (db w1) u = Some (b + p)
  /\ balance (db w2) u = Some (b + 2 * p).
Proof.
  intros H1 H2 Ho Hu Hne Hp Hpos Hb.
  assert (refund_due o = Some (u, p)) as Hdue by (by apply refund_due_Some).
  apply cancelOrder_Ok in H1, H2. rewrite Ho in H1. simpl in H1. rewrite Hdue in H1.
  assert (orders (db w1) !! id = Some (set_status cancelled o)) as Ho1.
  { rewrite H1. simpl. by rewrite lookup_alter, decide_True, Ho. }
  assert (balance (db w1) u = Some (b + p)) as Hb1.
  { rewrite H1.
    change (balance (release_cards id (update_orders (set_status cancelled) id
                       (credit_points u p (db w)))))
      with (balance (credit_points u p (db w))).
    by rewrite balance_credit, decide_True, Hb. }
  split; [by rewrite Ho1|]. split; [done|].
  rewrite Ho1 in H2. simpl in H2.
  change (refund_due (set_status cancelled o)) with (refund_due o) in H2.
  rewrite Hdue in H2. rewrite H2.
  change (balance (release_cards id (update_orders (set_status cancelled) id
                     (credit_points u p (db w1)))))
    with (balance (credit_points u p (db w1))).
  rewrite balance_credit, decide_True, Hb1 by done. simpl. f_equal. lia.
Qed.

(** X11. Deleting an order that does not exist is a silent no-op on the
    store: with an authorized caller, a non-empty id and a store that refuses
    nothing, [deleteOrder] returns normally, the store is exactly as it was
    (cards reserved under that id included) and the two admin views are
    invalidated all the same. *)
Theorem deleteOrder_missing_noop id ctx w :
  authorized ctx -> id <> [] -> (forall n, faults ctx n = None) ->
  orders (db w) !! id = None ->
  deleteOrder id ctx w =
    (Ok tt, mkWorld (db w)
              (revalidated w ++ [js "/admin/orders"; js "/admin/orders/" ++ id])
              (3 + statements w)).
Proof.
  intros Hadm Hid F Hno.
  assert (require_orderId id ctx w = (Ok tt, w)) as Hreq by (by destruct id).
  unfold deleteOrder, mbind, M_bind, checkAdmin. rewrite Hadm, Hreq.
  unfold transaction, deleteOneOrder, mbind, M_bind, mret, M_ret.
  rewrite exec_run by apply F. rewrite query_run by apply F.
  cbn [db revalidated statements]. unfold findFirst_order, Datatypes.id.
  rewrite Hno.
  rewrite exec_run by apply F. unfold revalidatePath. cbn [db revalidated statements].
  by rewrite <- !app_assoc.
Qed.

Lemma deleteOneOrder_balance id ctx w w' u :
  deleteOneOrder id ctx w = (Ok tt, w') ->
  balance (db w') u =
    (fun b => b + refund_to u (orders (db w) !! id)) <$> balance (db w) u.
Proof.
  intros H. apply deleteOneOrder_Ok in H. unfold refund_to.
  destruct (orders (db w) !! id) as [o|]; simpl.
  - assert (balance (db w') u =
            balance (match refund_due o with
                     | Some (v, p) => credit_points v p (db w)
                     | None => db w
                     end) u) as -> by (by destruct H as [-> | ->]).
    destruct (refund_due o) as [[v p]|].
    + rewrite balance_credit. case_decide; [done|].
      destruct (balance (db w) u); simpl; f_equal; lia.
    + destruct (balance (db w) u); simpl; f_equal; lia.
  - rewrite H. destruct (balance (db w) u); simpl; f_equal; lia.
Qed.


(** ** What a batch refunds *)

Lemma refund_sum_delete (u : jstring) (os : gmap jstring Order) (y : jstring)
    (l : list jstring) :
  NoDup l ->
  foldr (fun id acc => refund_to u (os !! id) + acc) 0 l =
    (if decide (y ∈ l) then refund_to u (os !! y) else 0) +
    foldr (fun id acc => refund_to u (delete y os !! id) + acc) 0 l.
Proof.
  induction 1 as [|x l Hx Hnd IH]; cbn [foldr].
  - destruct (decide (y ∈ [])) as [Hy | _]; [by apply elem_of_nil in Hy | done].
  - rewrite IH.
    destruct (decide (y ∈ l)) as [Hy | Hy], (decide (y ∈ x :: l)) as [Hy' | Hy'].
    + rewrite lookup_delete_ne by (intros ->; done). lia.
    + exfalso. apply Hy'. by right.
    + apply elem_of_cons in Hy' as [-> | ?]; [|done].
      rewrite lookup_delete_eq. change (refund_to u None) with 0. lia.
    + rewrite lookup_delete_ne; [lia|]. intros ->. apply Hy'. by left.
Qed.

Lemma for_of_deleteOneOrder_balance ids ctx w w' u :
  for_of ids deleteOneOrder ctx w = (Ok tt, w') ->
  balance (db w') u =
    (fun b => b + refund_total u (orders (db w)) ids) <$> balance (db w) u.
Proof.
  unfold refund_total. revert w. induction ids as [|y l IH]; simpl; intros w H.
  - step_ok. destruct (balance (db w') u); simpl; f_equal; lia.
  - apply bind_Ok in H as ([] & w1 & H1 & H).
    rewrite (IH _ H), (deleteOneOrder_balance _ _ _ _ u H1),
      (deleteOneOrder_orders _ _ _ _ H1).
    set (T := foldr _ 0 (remove_dups l)).
    assert (foldr (fun id acc => refund_to u (orders (db w) !! id) + acc) 0
              (if decide_rel elem_of y l then remove_dups l else y :: remove_dups l) =
            refund_to u (orders (db w) !! y) + T) as ->.
    { unfold T.
      pose proof (refund_sum_delete u (orders (db w)) y (remove_dups l)
                    (NoDup_remove_dups l)) as E.
      destruct (decide_rel elem_of y l) as [Hy | Hy]; simpl.
      - rewrite E, decide_True by (by apply elem_of_remove_dups). done.
      - rewrite E, decide_False by (by rewrite elem_of_remove_dups). lia. }
    destruct (balance (db w) u); simpl; f_equal; lia.
Qed.

(** X13. A batch refunds each of its orders once, however often its id is
    repeated in the list: when [deleteOrders] returns, every balance is its
    value before plus the points due to that user by the distinct orders of
    the batch that existed. *)
Theorem deleteOrders_refunds_once ids ctx w w' u :
  deleteOrders ids ctx w = (Ok tt, w') ->
  balance (db w') u =
    (fun b => b + refund_total u (orders (db w)) (clean_ids ids)) <$> balance (db w) u.
Proof.
  intros H. apply deleteOrders_Ok in H as (w0 & w1 & E0 & H & ->).
  rewrite <- E0. apply (for_of_deleteOneOrder_balance _ _ _ _ u H).
Qed.

(** X14. When [deleteOrders] returns, no order outside the batch changed, and
    the admin list was invalidated once when the batch was not empty, whatever
    its size, and not at all when it was empty. *)
Theorem deleteOrders_effect ids ctx w w' :
  deleteOrders ids ctx w = (Ok tt, w') ->
  authorized ctx
  /\ (forall k, k ∉ clean_ids ids -> orders (db w') !! k = orders (db w) !! k)
  /\ revalidated w' =
       revalidated w ++ (if clean_ids ids is [] then [] else [js "/admin/orders"]).
Proof.
  intros H. split; [|split].
  - unfold deleteOrders in H. apply bind_Ok in H as ([] & w0 & K & H).
    by apply checkAdmin_Ok in K as [? _].
  - intros k Hk. rewrite (deleteOrders_Ok_orders _ _ _ _ k H).
    by rewrite decide_False.
  - unfold deleteOrders in H. apply bind_Ok in H as ([] & w0 & K & H).
    apply checkAdmin_Ok in K as [_ ->].
    destruct (clean_ids ids) as [|y l].
    + step_ok. by rewrite app_nil_r.
    + apply bind_Ok in H as ([] & w1 & HT & H).
      apply (silent_transaction _
               (silent_for_of _ _ silent_deleteOneOrder)) in HT.
      step_ok. cbn [revalidated]. by rewrite HT.
Qed.

(** ** More on the refund verification *)


(** X16. When the gateway confirms the refund but the store refuses the
    update, [verifyOrderRefundStatus] does not throw: it returns a failure
    carrying the store's message, the order is not marked refunded and no view
    is invalidated. *)
Theorem verify_store_refusal ctx id w m k fields why :
  authorized ctx -> id <> [] -> credentials ctx m k ->
  gateway_reply ctx id m k = Json (JObj fields) ->
  assoc (js "code") fields = Some (JNum 1) ->
  assoc (js "status") fields = Some (JNum 0) ->
  faults ctx (statements w) = Some why ->
  verifyOrderRefundStatus id ctx w =
    (Ok (failure (JStr why)), mkWorld (db w) (revalidated w) (S (statements w))).
Proof.
  intros Hadm Hid Hcred Hreply Hcode Hst F.
  rewrite (verifyOrderRefundStatus_configured _ _ _ _ _ Hadm Hid Hcred), Hreply.
  unfold interpret_reply, mbind, M_bind, lift, get, mret, M_ret, exec, statement.
  rewrite Hcode, Hst. simpl. by rewrite F.
Qed.

Lemma interpret_reply_cases id data ctx w r w' :
  interpret_reply id data ctx w = (r, w') ->
  match r with
  | Ok res =>
      (w' = w /\
       ((exists e, res = failure e) \/
        (exists st shown, res = mkVerifyResult true (Some st) (Some shown) None
                          /\ strict_eq_num st 0 = false)))
      \/ (res = mkVerifyResult true (Some (JNum 0)) (Some (js "Refunded (Verified)")) None
          /\ faults ctx (statements w) = None
          /\ w' = mkWorld (update_orders (set_status refunded) id (db w))
                    (revalidated w ++ [js "/admin/orders"]) (S (statements w)))
  | Throw _ => db w' = db w /\ revalidated w' = revalidated w
  end.
Proof.
  unfold interpret_reply, mbind, M_bind, lift, throw, mret, M_ret, exec,
    statement, revalidatePath.
  intros H. repeat case_match; simplify_eq; simpl; try done;
    try (left; split; [done|]; first [left; by eexists | right; by eexists _, _]).
  right. split; [|done].
  match goal with
  | Hs : strict_eq_num ?v 0 = true |- _ =>
      destruct v; simpl in Hs; try discriminate;
      apply Z.eqb_eq in Hs; by subst
  end.
Qed.

(** X17. Whatever [verifyOrderRefundStatus] returns has one of two shapes,
    [{success: true, status, msg}] or [{success: false, error}]; and the only
    change it ever makes is the confirmed refund: either the store and the
    views are as before, or the result is the verified refund of [status 0],
    the queried order (and nothing else) has been given status [refunded] and
    the admin list has been invalidated. *)
Theorem verify_result_shape ctx id w r w' :
  verifyOrderRefundStatus id ctx w = (Ok r, w') ->
  ((exists st shown, r = mkVerifyResult true (Some st) (Some shown) None)
   \/ (exists e, r = failure e))
  /\ ((db w' = db w /\ revalidated w' = revalidated w)
      \/ (r = mkVerifyResult true (Some (JNum 0)) (Some (js "Refunded (Verified)")) None
          /\ db w' = update_orders (set_status refunded) id (db w)
          /\ revalidated w' = revalidated w ++ [js "/admin/orders"])).
Proof.
  unfold verifyOrderRefundStatus, mbind, M_bind, checkAdmin, ask, require_orderId.
  intros H. destruct (rejection ctx); [discriminate|].
  destruct (truthy id); [|discriminate]. cbn [mret M_ret] in H.
  destruct (_ || _); [discriminate|].
  unfold try_catch, fetch_json, mbind, M_bind, ask, throw, mret, M_ret in H.
  destruct (gateway _ _ _) as [e|data].
  { simplify_eq. split; [right; by eexists | by left]. }
  destruct (interpret_reply id data ctx w) as [[res|e] w1] eqn:Hrun;
    apply interpret_reply_cases in Hrun; simplify_eq.
  - destruct Hrun as [[-> Hshape] | (-> & _ & ->)].
    + split; [|by left].
      destruct Hshape as [(e & ->) | (st & shown & -> & _)];
        [right; by eexists | left; by eexists _, _].
    + split; [left; by eexists _, _ | right; done].
  - destruct Hrun as [? ?]. split; [right; by eexists | by left].
Qed.

Lemma interpret_reply_with_gateway g id data ctx w :
  interpret_reply id data (with_gateway g ctx) w = interpret_reply id data ctx w.
Proof.
  unfold interpret_reply, mbind, M_bind, lift, throw, mret, M_ret, exec,
    statement, revalidatePath.
  repeat case_match; simplify_eq; try done;
    cbn [faults with_gateway] in *; congruence.
Qed.

(** X18. The gateway is asked exactly one thing: the derived endpoint with
    the four parameters [act=order], [pid], [key] and [out_trade_no]. Two
    gateways that give the same answer to that one query lead to the same
    result and the same world, whatever they answer elsewhere. *)
Theorem verify_single_query g1 g2 ctx id w :
  g1 (derive_apiUrl (new_URL ctx) (payUrl_of ctx))
     [(js "act", js "order"); (js "pid", default [] (MERCHANT_ID ctx));
      (js "key", default [] (MERCHANT_KEY ctx)); (js "out_trade_no", id)] =
  g2 (derive_apiUrl (new_URL ctx) (payUrl_of ctx))
     [(js "act", js "order"); (js "pid", default [] (MERCHANT_ID ctx));
      (js "key", default [] (MERCHANT_KEY ctx)); (js "out_trade_no", id)] ->
  verifyOrderRefundStatus id (with_gateway g1 ctx) w =
  verifyOrderRefundStatus id (with_gateway g2 ctx) w.
Proof.
  intros Hsame.
  unfold verifyOrderRefundStatus, mbind, M_bind, checkAdmin, ask, require_orderId.
  cbn [rejection with_gateway]. destruct (rejection ctx); [done|].
  destruct (truthy id); [|done]. cbn [mret M_ret].
  cbn [MERCHANT_ID MERCHANT_KEY with_gateway].
  destruct (_ || _); [done|].
  unfold try_catch, fetch_json, mbind, M_bind, ask, status_query, payUrl_of.
  cbn [gateway new_URL PAY_URL with_gateway]. unfold payUrl_of in Hsame.
  rewrite Hsame. destruct (g2 _ _); [done|]. unfold mret, M_ret.
  by rewrite !interpret_reply_with_gateway.
Qed.

(** X19. A body that is not an object never makes [verifyOrderRefundStatus]
    throw or change anything: [null] gives a failure carrying the message of
    the resulting type error, and a boolean, a number, a string or an array
    gives the failure [Query failed]; so does an object without [code] whose
    [msg] is missing or falsy. *)
Theorem verify_malformed_body ctx id w m k data :
  authorized ctx -> id <> [] -> credentials ctx m k ->
  gateway_reply ctx id m k = Json data ->
  (data = JNull ->
     exists why, get data (js "code") = inl (TypeError why) /\
       verifyOrderRefundStatus id ctx w = (Ok (failure (JStr why)), w))
  /\ ((forall fields, data <> JObj fields) -> data <> JNull -> data <> JUndefined ->
        verifyOrderRefundStatus id ctx w = (Ok (failure (JStr (js "Query failed"))), w))
  /\ (forall fields, data = JObj fields -> assoc (js "code") fields = None ->
        js_truthy (default JUndefined (assoc (js "msg") fields)) = false ->
        verifyOrderRefundStatus id ctx w = (Ok (failure (JStr (js "Query failed"))), w)).
Proof.
  intros Hadm Hid Hcred Hreply.
  rewrite (verifyOrderRefundStatus_configured _ _ _ _ _ Hadm Hid Hcred), Hreply.
  unfold interpret_reply, mbind, M_bind, lift, mret, M_ret, throw.
  split; [|split].
  - intros ->. simpl. eauto.
  - intros Hobj Hnull Hundef.
    destruct data; try done; by destruct (Hobj fields).
  - intros fields -> Hcode Hmsg. simpl. rewrite Hcode. simpl.
    unfold failure_text. by rewrite Hmsg.
Qed.

(** ** The endpoint, whatever the configuration *)

(** X20. Whatever the configured URL and whatever the parser makes of it, the
    endpoint that is queried ends in [api.php]; when the URL parses, the
    endpoint is on the protocol and host of the configured URL; and an unset
    or empty [PAY_URL] stands for the default submission endpoint. *)
Theorem apiUrl_shape (parse : url_parser) (payUrl : jstring) :
  endsWith (derive_apiUrl parse payUrl) (js "api.php") = true
  /\ (forall u, parse payUrl = Some u ->
        startsWith (protocol u ++ js "//" ++ host u) (derive_apiUrl parse payUrl) = true)
  /\ (forall ctx, PAY_URL ctx = None \/ PAY_URL ctx = Some [] ->
        payUrl_of ctx = default_payUrl).
Proof.
  split; [|split].
  - unfold derive_apiUrl. destruct (parse payUrl) as [u|]; [|by vm_compute].
    cbv zeta.
    set (a := protocol u ++ js "//" ++ host u ++ api_pathname (pathname u)).
    destruct (endsWith a (js "api.php")) eqn:E; [exact E|].
    change (js "/epay/api.php") with (js "/epay/" ++ js "api.php").
    rewrite !app_assoc. apply endsWith_app.
  - intros u Hu. unfold derive_apiUrl. rewrite Hu.
    cbv zeta.
    destruct (endsWith _ (js "api.php")); rewrite !app_assoc;
      rewrite <- (app_assoc _ (js "//")); apply startsWith_app.
  - intros ctx [H | H]; unfold payUrl_of; by rewrite H.
Qed.

(** ** More on the shop logo *)

(** X21. The fallback letter of [ShopLogo] is always exactly one code unit,
    and never white space. *)
Theorem fallbackLetter_one_visible (n : option jstring) :
  exists c : N, fallbackLetter n = [c] /\ is_ws c = false.
Proof.
  unfold fallbackLetter. destruct n as [n|]; [|by exists 76%N].
  destruct (trim n) as [|c r] eqn:E; simpl.
  - by exists 76%N.
  - exists c. split; [done|].
    destruct (trim_edge_clean n) as [Hh _]. apply (Hh c r E).
Qed.

Lemma getFaviconUrl_parsed (parse : url_parser) (address : jstring) u :
  parse address = Some u -> getFaviconUrl parse address <> [].
Proof.
  intros Hu. unfold getFaviconUrl. rewrite Hu. intros E.
  apply (f_equal (@length N)) in E. rewrite length_app in E.
  vm_compute (length (js "/favicon.ico")) in E. simpl in E. lia.
Qed.

(** X22. [ShopLogo] shows an image exactly when no load error has occurred
    and either the logo is not blank or the url parses; the image then has a
    source that is not empty and the name as its alternative text, and the box
    is transparent exactly when the image is shown. *)
Theorem ShopLogo_shows_image (parse : url_parser) (p : Props) (failed : bool) :
  ((exists s alt, child (render parse p failed) = Img s alt) <->
   failed = false /\
   (trim (default [] (logo p)) <> [] \/ exists u, parse (url p) = Some u))
  /\ (forall s alt, child (render parse p failed) = Img s alt ->
        s <> [] /\ alt = name p /\ s = src parse (url p) (logo p))
  /\ (transparent (render parse p failed) = true <->
      exists s alt, child (render parse p failed) = Img s alt).
Proof.
  assert (src parse (url p) (logo p) <> [] <->
          (trim (default [] (logo p)) <> [] \/ exists u, parse (url p) = Some u))
    as Hsrc.
  { unfold src. rewrite or_else_nil_r.
    destruct (trim (default [] (logo p))) as [|c r]; simpl.
    - destruct (parse (url p)) as [u|] eqn:Hu.
      + split; [eauto|]. intros _. by apply (getFaviconUrl_parsed _ _ u).
      + unfold getFaviconUrl. rewrite Hu.
        split; [done|]. intros [? | (u & ?)]; done.
    - split; [by left | done]. }
  unfold render. cbn [child transparent].
  destruct (src parse (url p) (logo p)) as [|c s] eqn:Es; simpl.
  - split; [|split].
    + split; [intros (? & ? & ?); done|].
      intros [_ H]. by apply Hsrc in H.
    + intros ? ? ?; done.
    + split; [done | intros (? & ? & ?); done].
  - destruct failed; simpl.
    + split; [|split].
      * split; [intros (? & ? & ?); done | intros [? _]; done].
      * intros ? ? ?; done.
      * split; [done | intros (? & ? & ?); done].
    + split; [|split].
      * split; [|eauto]. intros _. split; [done|]. by apply Hsrc.
      * intros s' alt ?. by simplify_eq.
      * split; [eauto | done].
Qed.

(** ** What no action does *)

Section Respects.
Variable R : Tables -> Tables -> Prop.
Hypothesis R_refl : forall t, R t t.
Hypothesis R_trans : forall t1 t2 t3, R t1 t2 -> R t2 t3 -> R t1 t3.

Lemma respects_bind {A B} (m : M A) (f : A -> M B) :
  respects R m -> (forall a, respects R (f a)) -> respects R (m ≫= f).
Proof.
  intros Hm Hf ctx w r w' H.
  apply bind_inv in H as [(a & w1 & H1 & H2) | (e & H1 & _)].
  - apply (R_trans _ (db w1)); [by apply Hm in H1 | by apply Hf in H2].
  - by apply Hm in H1.
Qed.

Lemma respects_pure {A} (m : M A) :
  (forall ctx w, db (m ctx w).2 = db w) -> respects R m.
Proof.
  intros Hm ctx w r w' H. specialize (Hm ctx w). rewrite H in Hm. simpl in Hm.
  rewrite Hm. apply R_refl.
Qed.

Lemma respects_statement {A} (run : Tables -> A * Tables) :
  (forall t, R t (run t).2) -> respects R (statement run).
Proof.
  intros Hrun ctx w r w' H.
  apply statement_inv in H as [(m & _ & _ & ->) | (_ & _ & ->)]; simpl; auto.
Qed.

Lemma respects_try_catch {A} (body : M A) handler :
  respects R body -> (forall e, respects R (handler e)) ->
  respects R (try_catch body handler).
Proof.
  intros Hb Hh ctx w r w' H. unfold try_catch in H.
  destruct (body ctx w) as [[a|e] w1] eqn:E.
  - simplify_eq. by apply Hb in E.
  - apply (R_trans _ (db w1)); [by apply Hb in E | by apply Hh in H].
Qed.

Lemma respects_transaction {A} (body : M A) :
  respects R body -> respects R (transaction body).
Proof.
  intros Hb ctx w r w' H. destruct r as [a|e].
  - apply transaction_inv in H as (_ & w1 & H & _ & ->). simpl.
    apply Hb in H. done.
  - apply transaction_inv in H. rewrite H. apply R_refl.
Qed.

Lemma respects_for_of {A} (l : list A) (f : A -> M unit) :
  (forall x, respects R (f x)) -> respects R (for_of l f).
Proof.
  intros Hf. induction l as [|x l IH]; simpl.
  - by apply respects_pure.
  - by apply respects_bind.
Qed.

End Respects.

Lemma evolves_refl t : evolves t t.
Proof.
  repeat split; try done.
  intros u. destruct (loginUsers t !! u); constructor. split; [done | lia].
Qed.

Lemma evolves_trans t1 t2 t3 : evolves t1 t2 -> evolves t2 t3 -> evolves t1 t3.
Proof.
  intros (Ho & Hu & Hc & Hr) (Ho' & Hu' & Hc' & Hr').
  repeat split; [auto | | congruence | auto].
  intros u. specialize (Hu u). specialize (Hu' u).
  destruct Hu as [a b [? ?]|]; inversion Hu' as [? c [? ?]|]; subst; constructor.
  split; [congruence | lia].
Qed.

Lemma evolves_update_orders set id t : evolves t (update_orders set id t).
Proof.
  repeat split; try done.
  - intros k Hk. unfold update_orders; simpl. rewrite lookup_alter.
    case_decide; [subst; by rewrite Hk | done].
  - intros u. simpl. destruct (loginUsers t !! u); constructor. split; [done | lia].
Qed.

Lemma evolves_credit_points u p t : 0 <= p -> evolves t (credit_points u p t).
Proof.
  intros Hp. repeat split; try done.
  intros v. unfold credit_points; simpl. rewrite lookup_alter.
  case_decide; [subst v|];
    destruct (loginUsers t !! _); constructor; simpl; split; (done || lia).
Qed.

Lemma evolves_release_cards id t : evolves t (release_cards id t).
Proof.
  repeat split; try done.
  - intros u. simpl. destruct (loginUsers t !! u); constructor. split; [done | lia].
  - unfold release_cards; simpl. rewrite <- list_fmap_compose.
    apply list_fmap_ext. intros i c _. simpl. by destruct (reserved_unused id c).
Qed.

Lemma evolves_delete_refundRequests id t : evolves t (delete_refundRequests id t).
Proof.
  repeat split; try done.
  - intros u. simpl. destruct (loginUsers t !! u); constructor. split; [done | lia].
  - intros r Hr. unfold delete_refundRequests in Hr; simpl in Hr.
    by apply filter_In in Hr as [? _].
Qed.

Lemma evolves_delete_order id t : evolves t (delete_order id t).
Proof.
  repeat split; try done.
  - intros k Hk. unfold delete_order; simpl.
    destruct (decide (id = k)) as [-> | ?];
      [apply lookup_delete_eq | by rewrite lookup_delete_ne].
  - intros u. simpl. destruct (loginUsers t !! u); constructor. split; [done | lia].
Qed.

Ltac respects_step :=
  first
    [ apply respects_bind; [apply evolves_trans | | intros ?]
    | apply respects_try_catch; [apply evolves_trans | | intros ?]
    | apply respects_transaction; [apply evolves_refl |]
    | apply respects_statement; [apply evolves_refl |]; intros ?; cbn [snd];
      first [ apply evolves_refl | apply evolves_update_orders
            | apply evolves_release_cards | apply evolves_delete_refundRequests
            | apply evolves_delete_order ]
    | apply respects_pure; [apply evolves_refl |]; intros ? ?;
      unfold checkAdmin, require_orderId, ask, mret, M_ret, throw, lift,
        fetch_json, revalidatePath, mbind, M_bind;
      simpl; repeat case_match; reflexivity ].

Lemma respects_refund (o : option Order) :
  respects evolves
    match o ≫= refund_due with
    | Some (u, p) => exec (credit_points u p)
    | None => mret tt
    end.
Proof.
  destruct (o ≫= refund_due) as [[u p]|] eqn:E; [|by respects_step].
  destruct o as [o|]; [simpl in E|done]. apply refund_due_Some in E as (_ & _ & _ & Hp).
  unfold exec. apply respects_statement; [apply evolves_refl|].
  intros t. cbn [snd]. apply evolves_credit_points. lia.
Qed.

Lemma respects_deleteOneOrder id : respects evolves (deleteOneOrder id).
Proof.
  unfold deleteOneOrder, ensure_reservation_columns, exec, query.
  apply respects_bind; [apply evolves_trans | by respects_step |].
  intros [o|]; [|by respects_step].
  apply respects_bind; [apply evolves_trans | apply (respects_refund (Some o)) |].
  intros _. repeat respects_step.
Qed.

Lemma markOrderPaid_evolves id :
  respects evolves (markOrderPaid id).
Proof.
  unfold markOrderPaid, exec. repeat respects_step.
Qed.

Lemma markOrderDelivered_evolves id :
  respects evolves (markOrderDelivered id).
Proof.
  unfold markOrderDelivered, exec, query.
  repeat first [respects_step | case_match].
Qed.

Lemma cancelOrder_evolves id :
  respects evolves (cancelOrder id).
Proof.
  unfold cancelOrder.
  apply respects_bind; [apply evolves_trans | by respects_step | intros _].
  apply respects_bind; [apply evolves_trans | by respects_step | intros _].
  apply respects_bind; [apply evolves_trans | | intros _; repeat respects_step].
  apply respects_transaction; [apply evolves_refl|].
  unfold ensure_reservation_columns, exec, query.
  apply respects_bind; [apply evolves_trans | by respects_step | intros o].
  apply respects_bind; [apply evolves_trans | apply respects_refund | intros _].
  repeat respects_step.
Qed.

Lemma updateOrderEmail_evolves id given :
  respects evolves (updateOrderEmail id given).
Proof.
  unfold updateOrderEmail, exec. repeat respects_step.
Qed.

Lemma deleteOrder_evolves id :
  respects evolves (deleteOrder id).
Proof.
  unfold deleteOrder.
  apply respects_bind; [apply evolves_trans | by respects_step | intros _].
  apply respects_bind; [apply evolves_trans | by respects_step | intros _].
  apply respects_bind; [apply evolves_trans | | intros _; repeat respects_step].
  apply respects_transaction; [apply evolves_refl|].
  apply respects_deleteOneOrder.
Qed.

Lemma deleteOrders_evolves ids :
  respects evolves (deleteOrders ids).
Proof.
  unfold deleteOrders.
  apply respects_bind; [apply evolves_trans | by respects_step | intros _].
  destruct (clean_ids ids); [by respects_step|].
  apply respects_bind; [apply evolves_trans | | intros _; repeat respects_step].
  apply respects_transaction; [apply evolves_refl|].
  apply respects_for_of; [apply evolves_refl | apply evolves_trans |].
  apply respects_deleteOneOrder.
Qed.

Lemma verifyOrderRefundStatus_evolves id :
  respects evolves (verifyOrderRefundStatus id).
Proof.
  unfold verifyOrderRefundStatus, interpret_reply, exec.
  repeat first [respects_step | case_match].
Qed.

(** X23. Whatever their outcome, none of the seven actions creates an order,
    creates or removes an account or a card, renames a user, lowers a
    balance, changes a card's id or used-flag, or creates a refund request. *)
Theorem actions_evolve ctx w :
  (forall id r w', markOrderPaid id ctx w = (r, w') -> evolves (db w) (db w'))
  /\ (forall id r w', markOrderDelivered id ctx w = (r, w') -> evolves (db w) (db w'))
  /\ (forall id r w', cancelOrder id ctx w = (r, w') -> evolves (db w) (db w'))
  /\ (forall id email r w',
        updateOrderEmail id email ctx w = (r, w') -> evolves (db w) (db w'))
  /\ (forall id r w', deleteOrder id ctx w = (r, w') -> evolves (db w) (db w'))
  /\ (forall ids r w', deleteOrders ids ctx w = (r, w') -> evolves (db w) (db w'))
  /\ (forall id r w',
        verifyOrderRefundStatus id ctx w = (r, w') -> evolves (db w) (db w')).
Proof.
  split; [|split; [|split; [|split; [|split; [|split]]]]].
  - intros id r w'. apply markOrderPaid_evolves.
  - intros id r w'. apply markOrderDelivered_evolves.
  - intros id r w'. apply cancelOrder_evolves.
  - intros id given r w'. apply updateOrderEmail_evolves.
  - intros id r w'. apply deleteOrder_evolves.
  - intros ids r w'. apply deleteOrders_evolves.
  - intros id r w'. apply verifyOrderRefundStatus_evolves.
Qed.

(** ** Sequences of calls *)

Lemma update_orders_twice f g id t :
  (forall o, f (g o) = f o) ->
  update_orders f id (update_orders g id t) = update_orders f id t.
Proof.
  intros Hfg. unfold update_orders; simpl. f_equal.
  apply map_eq. intros k. rewrite !lookup_alter.
  destruct (decide (id = k)) as [-> | ?]; [|done].
  rewrite decide_True by done.
  destruct (orders t !! k); simpl; [|done]. by rewrite Hfg.
Qed.

(** X24. The last write wins: marking an order paid twice leaves the store
    as the second call alone would have left it (status [paid], [paidAt] the
    time of the second call), and likewise storing an email twice leaves the
    second email. *)
Theorem last_write_wins id ctx1 ctx2 w w1 w2 :
  (markOrderPaid id ctx1 w = (Ok tt, w1) -> markOrderPaid id ctx2 w1 = (Ok tt, w2) ->
   db w2 = update_orders (set_paid (now ctx2)) id (db w)
   /\ forall o, orders (db w) !! id = Some o ->
        (paidAt <$> orders (db w2) !! id) = Some (Some (now ctx2)))
  /\ (forall e1 e2,
        updateOrderEmail id e1 ctx1 w = (Ok tt, w1) ->
        updateOrderEmail id e2 ctx2 w1 = (Ok tt, w2) ->
        db w2 = update_orders (set_email (normalize_email e2)) id (db w)
        /\ forall o, orders (db w) !! id = Some o ->
             (email <$> orders (db w2) !! id) = Some (normalize_email e2)).
Proof.
  split.
  - intros H1 H2. apply markOrderPaid_Ok in H1 as (_ & _ & ->).
    apply markOrderPaid_Ok in H2 as (_ & _ & ->). cbn [db].
    rewrite update_orders_twice by done. split; [done|].
    intros o Ho. by rewrite update_orders_lookup, Ho.
  - intros e1 e2 H1 H2. apply updateOrderEmail_Ok in H1 as (_ & _ & ->).
    apply updateOrderEmail_Ok in H2 as (_ & _ & ->). cbn [db].
    rewrite update_orders_twice by done. split; [done|].
    intros o Ho. by rewrite update_orders_lookup, Ho.
Qed.

Lemma keeps_used_trans t1 t2 t3 :
  keeps_used t1 t2 -> keeps_used t2 t3 -> keeps_used t1 t3.
Proof. intros H12 H23 i c Hc Hu. apply H23; [by apply H12 | done]. Qed.

Lemma keeps_cards_keeps_used t t' : cards t' = cards t -> keeps_used t t'.
Proof. intros E i c Hc _. by rewrite E. Qed.

Lemma after_call_keeps_used c ctx w : keeps_used (db w) (db (after_call c ctx w)).
Proof.
  destruct c as [id | id | id | id given | id | ids | id]; simpl.
  - apply keeps_cards_keeps_used.
    destruct (markOrderPaid id ctx w) as [r w'] eqn:E.
    by apply keeps_cards_markOrderPaid in E.
  - apply keeps_cards_keeps_used.
    destruct (markOrderDelivered id ctx w) as [r w'] eqn:E.
    by apply keeps_cards_markOrderDelivered in E.
  - destruct (cancelOrder id ctx w) as [r w'] eqn:E.
    by apply cancelOrder_keeps_used in E.
  - apply keeps_cards_keeps_used.
    destruct (updateOrderEmail id given ctx w) as [r w'] eqn:E.
    by apply keeps_cards_updateOrderEmail in E.
  - destruct (deleteOrder id ctx w) as [r w'] eqn:E.
    by apply deleteOrder_keeps_used in E.
  - destruct (deleteOrders ids ctx w) as [r w'] eqn:E.
    by apply deleteOrders_keeps_used in E.
  - apply keeps_cards_keeps_used.
    destruct (verifyOrderRefundStatus id ctx w) as [r w'] eqn:E.
    by apply keeps_cards_verifyOrderRefundStatus in E.
Qed.

Lemma after_call_evolves c ctx w : evolves (db w) (db (after_call c ctx w)).
Proof.
  destruct c as [id | id | id | id given | id | ids | id]; simpl;
    match goal with
    | |- evolves _ (db (?call).2) => destruct call as [r w'] eqn:E; simpl
    end.
  - by apply markOrderPaid_evolves in E.
  - by apply markOrderDelivered_evolves in E.
  - by apply cancelOrder_evolves in E.
  - by apply updateOrderEmail_evolves in E.
  - by apply deleteOrder_evolves in E.
  - by apply deleteOrders_evolves in E.
  - by apply verifyOrderRefundStatus_evolves in E.
Qed.

(** X25. Over any sequence of calls of the exported actions, made in any
    contexts and with any outcomes: an order id that is absent from the store
    stays absent (so an order once deleted never comes back), and a card that
    is used stays exactly as it is, reservation included. *)
Theorem calls_never_resurrect (calls : list (Call * Ctx)) (w : World) :
  (forall id, orders (db w) !! id = None ->
     orders (db (after_calls calls w)) !! id = None)
  /\ keeps_used (db w) (db (after_calls calls w)).
Proof.
  revert w. induction calls as [|[c ctx] rest IH]; intros w; simpl.
  - split; [done | apply keeps_used_refl].
  - destruct (IH (after_call c ctx w)) as [IHo IHc]. split.
    + intros id Hno. apply IHo.
      destruct (after_call_evolves c ctx w) as (Ho & _).
      by apply Ho.
    + eapply keeps_used_trans; [apply after_call_keeps_used | apply IHc].
Qed.

(** ** Further worked instances *)

Lemma markOrderPaid_effect_witness :
  orders (db (markOrderPaid (js "A") Sample.ctx Sample.world).2) !! js "A" =
    Some (mkOrder paid (Some 1000) None (Some (js "u1")) (Some 5) None
            (Some (js "KEY-1"))).
Proof.
  apply (proj1 (proj2 (proj2 (markOrderPaid_effect (js "A") Sample.ctx Sample.world
           (markOrderPaid (js "A") Sample.ctx Sample.world).2
           ltac:(vm_compute; reflexivity)))) Sample.orderA).
  vm_compute; reflexivity.
Defined.

Lemma markOrderDelivered_effect_witness :
  exists o key,
    orders Sample.tables !! js "A" = Some o /\ cardKey o = Some key /\ key <> [] /\
    orders (db (markOrderDelivered (js "A") Sample.ctx Sample.world).2) !! js "A" =
      Some (mkOrder delivered (paidAt o) (Some 1000) (userId o) (pointsUsed o)
              (email o) (cardKey o)).
Proof.
  apply (proj1 (markOrderDelivered_effect (js "A") Sample.ctx Sample.world
           (markOrderDelivered (js "A") Sample.ctx Sample.world).2
           ltac:(vm_compute; reflexivity))).
Defined.

Lemma updateOrderEmail_effect_witness :
  orders (db (updateOrderEmail (js "A") (Some (js " a@b.com ")) Sample.ctx
                Sample.world).2) !! js "A" =
    Some (mkOrder pending None None (Some (js "u1")) (Some 5) (Some (js "a@b.com"))
            (Some (js "KEY-1"))).
Proof.
  apply (proj1 (proj2 (proj2 (updateOrderEmail_effect (js "A") (Some (js " a@b.com "))
           Sample.ctx Sample.world
           (updateOrderEmail (js "A") (Some (js " a@b.com ")) Sample.ctx Sample.world).2
           ltac:(vm_compute; reflexivity)))) Sample.orderA).
  vm_compute; reflexivity.
Defined.

Lemma unauthorized_no_effect_witness :
  cancelOrder (js "A") Cases.stranger Sample.world =
    (Throw (Unauthorized (js "Unauthorized")), Sample.world).
Proof.
  apply (proj1 (proj2 (proj2 (unauthorized_no_effect Cases.stranger Sample.world
           (js "Unauthorized") eq_refl)))).
Defined.

Lemma empty_orderId_refused_witness :
  deleteOrder [] Sample.ctx Sample.world =
    (Throw (Error (js "Missing order id")), Sample.world).
Proof.
  apply (proj2 (proj2 (proj2 (empty_orderId_refused Sample.ctx Sample.world eq_refl)))).
Defined.

Lemma failure_leaves_no_trace_witness :
  let run := cancelOrder (js "A")
               (Sample.ctx_with Sample.refunded_reply (Sample.only 5)) Sample.world in
  run.1 = Throw (DriverError (js "connection lost"))
  /\ db run.2 = Sample.tables /\ revalidated run.2 = [].
Proof.
  split; [vm_compute; reflexivity|].
  apply (failure_leaves_no_trace
           (Sample.ctx_with Sample.refunded_reply (Sample.only 5)) Sample.world
           (DriverError (js "connection lost"))).
  exists (js "A"). right. left. vm_compute; reflexivity.
Defined.


Lemma cancelOrder_twice_refunds_twice_witness :
  balance
    (db (cancelOrder (js "A") Cases.later
           (cancelOrder (js "A") Sample.ctx Sample.world).2).2) (js "u1") = Some 20.
Proof.
  apply (proj2 (proj2 (cancelOrder_twice_refunds_twice (js "A") Sample.ctx Cases.later
           Sample.world (cancelOrder (js "A") Sample.ctx Sample.world).2
           (cancelOrder (js "A") Cases.later
              (cancelOrder (js "A") Sample.ctx Sample.world).2).2
           Sample.orderA (js "u1") 5 10
           ltac:(vm_compute; reflexivity) ltac:(vm_compute; reflexivity)
           ltac:(vm_compute; reflexivity) eq_refl ltac:(vm_compute; discriminate)
           eq_refl eq_refl ltac:(vm_compute; reflexivity)))).
Defined.

Lemma deleteOrder_missing_noop_witness :
  deleteOrder (js "Z") Sample.ctx Sample.world =
    (Ok tt, mkWorld Sample.tables [js "/admin/orders"; js "/admin/orders/Z"] 3).
Proof.
  apply (deleteOrder_missing_noop (js "Z") Sample.ctx Sample.world eq_refl
           ltac:(vm_compute; discriminate) (fun n => eq_refl)
           ltac:(vm_compute; reflexivity)).
Defined.


Lemma deleteOrders_refunds_once_witness :
  balance (db (deleteOrders (Some [js "A"; js " A"; js "B"; js "A "]) Sample.ctx
                 Sample.world).2) (js "u1") = Some 15.
Proof.
  pose proof (deleteOrders_refunds_once (Some [js "A"; js " A"; js "B"; js "A "])
                Sample.ctx Sample.world
                (deleteOrders (Some [js "A"; js " A"; js "B"; js "A "]) Sample.ctx
                   Sample.world).2
                (js "u1") ltac:(vm_compute; reflexivity)) as H.
  rewrite H. vm_compute; reflexivity.
Defined.

Lemma deleteOrders_effect_witness :
  let w' := (deleteOrders (Some [js "A"; js "A"]) Sample.ctx Sample.world).2 in
  orders (db w') !! js "B" = Some Sample.orderB
  /\ revalidated w' = [js "/admin/orders"].
Proof.
  intros w'.
  pose proof (deleteOrders_effect (Some [js "A"; js "A"]) Sample.ctx Sample.world w'
                ltac:(vm_compute; reflexivity)) as (_ & Hother & Hviews).
  split.
  - rewrite (Hother (js "B")); [vm_compute; reflexivity|].
    vm_compute. intros Hin. apply elem_of_cons in Hin as [Hin | Hin].
    + discriminate.
    + apply list_elem_of_singleton in Hin. discriminate.
  - rewrite Hviews. vm_compute; reflexivity.
Defined.


Lemma verify_store_refusal_witness :
  verifyOrderRefundStatus (js "A")
    (Sample.ctx_with Sample.refunded_reply (Sample.only 0)) Sample.world =
    (Ok (failure (JStr (js "connection lost"))), mkWorld Sample.tables [] 1).
Proof.
  apply (verify_store_refusal
           (Sample.ctx_with Sample.refunded_reply (Sample.only 0)) (js "A") Sample.world
           (js "1001") (js "secret") [(js "code", JNum 1); (js "status", JNum 0)]
           (js "connection lost")
           eq_refl ltac:(vm_compute; discriminate)
           ltac:(repeat split; vm_compute; (reflexivity || discriminate))
           ltac:(vm_compute; reflexivity) ltac:(vm_compute; reflexivity)
           ltac:(vm_compute; reflexivity) ltac:(vm_compute; reflexivity)).
Defined.

Lemma verify_result_shape_witness :
  let run := verifyOrderRefundStatus (js "A") Sample.ctx Sample.world in
  exists r, run.1 = Ok r /\
    ((exists st shown, r = mkVerifyResult true (Some st) (Some shown) None)
     \/ (exists e, r = failure e)).
Proof.
  intros run.
  exists (mkVerifyResult true (Some (JNum 0)) (Some (js "Refunded (Verified)")) None).
  split; [vm_compute; reflexivity|].
  apply (proj1 (verify_result_shape Sample.ctx (js "A") Sample.world _ run.2
                  ltac:(vm_compute; reflexivity))).
Defined.

Lemma verify_single_query_witness :
  verifyOrderRefundStatus (js "A")
    (with_gateway (Cases.picky Sample.bad_pid_reply) Sample.ctx) Sample.world =
  verifyOrderRefundStatus (js "A")
    (with_gateway (Cases.picky (Rejects (FetchError (js "down")))) Sample.ctx)
    Sample.world.
Proof.
  apply (verify_single_query (Cases.picky Sample.bad_pid_reply)
           (Cases.picky (Rejects (FetchError (js "down")))) Sample.ctx (js "A")
           Sample.world).
  vm_compute; reflexivity.
Defined.

Lemma verify_malformed_body_witness :
  verifyOrderRefundStatus (js "A")
    (Sample.ctx_with (Json (JArr [JNum 1])) Sample.never) Sample.world =
    (Ok (failure (JStr (js "Query failed"))), Sample.world).
Proof.
  apply (proj1 (proj2 (verify_malformed_body
           (Sample.ctx_with (Json (JArr [JNum 1])) Sample.never) (js "A") Sample.world
           (js "1001") (js "secret") (JArr [JNum 1])
           eq_refl ltac:(vm_compute; discriminate)
           ltac:(repeat split; vm_compute; (reflexivity || discriminate))
           ltac:(vm_compute; reflexivity))));
    discriminate.
Defined.

Lemma apiUrl_shape_witness :
  startsWith (js "https://pay.example.com")
    (derive_apiUrl Sample.parse (js "https://pay.example.com/gateway")) = true.
Proof.
  apply (proj1 (proj2 (apiUrl_shape Sample.parse (js "https://pay.example.com/gateway")))
           (mkURL (js "https:") (js "pay.example.com") (js "/gateway")
              (js "https://pay.example.com"))).
  vm_compute; reflexivity.
Defined.

Lemma ShopLogo_shows_image_witness :
  exists s alt,
    child (render Sample.parse
             (mkProps (Some (js "Shop")) (js "not a url") (Some (js " /logo.png ")))
             false) = Img s alt.
Proof.
  apply (proj2 (proj1 (ShopLogo_shows_image Sample.parse
           (mkProps (Some (js "Shop")) (js "not a url") (Some (js " /logo.png ")))
           false))).
  split; [reflexivity|]. left. vm_compute; discriminate.
Defined.

Lemma actions_evolve_witness :
  evolves Sample.tables
    (db (deleteOrders (Some [js "A"; js "B"]) Sample.ctx Sample.world).2).
Proof.
  apply (proj1 (proj2 (proj2 (proj2 (proj2 (proj2
           (actions_evolve Sample.ctx Sample.world))))))
           (Some [js "A"; js "B"])
           (deleteOrders (Some [js "A"; js "B"]) Sample.ctx Sample.world).1).
  vm_compute; reflexivity.
Defined.

Lemma last_write_wins_witness :
  paidAt <$>
    orders (db (markOrderPaid (js "A") Cases.later
                  (markOrderPaid (js "A") Sample.ctx Sample.world).2).2) !! js "A" =
  Some (Some 4600).
Proof.
  apply (proj2 (proj1 (last_write_wins (js "A") Sample.ctx Cases.later Sample.world
           (markOrderPaid (js "A") Sample.ctx Sample.world).2
           (markOrderPaid (js "A") Cases.later
              (markOrderPaid (js "A") Sample.ctx Sample.world).2).2)
           ltac:(vm_compute; reflexivity) ltac:(vm_compute; reflexivity))
         Sample.orderA).
  vm_compute; reflexivity.
Defined.

Lemma calls_never_resurrect_witness :
  orders
    (db (after_calls
           [(MarkPaid (js "A"), Cases.later); (Verify (js "A"), Cases.later);
            (Cancel (js "A"), Cases.later)]
           (deleteOrder (js "A") Sample.ctx Sample.world).2)) !! js "A" = None.
Proof.
  apply (proj1 (calls_never_resurrect
           [(MarkPaid (js "A"), Cases.later); (Verify (js "A"), Cases.later);
            (Cancel (js "A"), Cases.later)]
           (deleteOrder (js "A") Sample.ctx Sample.world).2)).
  vm_compute; reflexivity.
Defined.

(** ** A batch of one *)

Lemma transaction_then_ret (m : M unit) ctx w :
  transaction (m;; mret tt) ctx w = transaction m ctx w.
Proof.
  unfold transaction, mbind, M_bind, mret, M_ret.
  destruct (exec Datatypes.id ctx w) as [[[]|e] w0]; [|done].
  destruct (m ctx w0) as [[[]|e] w1]; done.
Qed.

Lemma bind_run {A B} (m : M A) (f : A -> M B) ctx w :
  (m ≫= f) ctx w =
    match m ctx w with
    | (Ok a, w') => f a ctx w'
    | (Throw e, w') => (Throw e, w')
    end.
Proof. reflexivity. Qed.

(** X26. For an id that is not empty and has no white space at either end,
    deleting it as a batch of one and deleting it alone send the same
    statements and end alike: same outcome, same store; they differ only in
    the views, the single delete also invalidating the admin detail of the
    order. *)
Theorem batch_of_one id ctx w :
  id <> [] -> edge_clean id ->
  let one := deleteOrder id ctx w in
  let batch := deleteOrders (Some [id]) ctx w in
  one.1 = batch.1
  /\ db one.2 = db batch.2
  /\ statements one.2 = statements batch.2
  /\ (one.1 = Ok tt ->
      revalidated one.2 = revalidated batch.2 ++ [js "/admin/orders/" ++ id]).
Proof.
  intros Hid Hclean one batch. unfold one, batch, deleteOrder, deleteOrders.
  rewrite clean_ids_fixed by (constructor; [done | constructor]).
  assert (require_orderId id ctx w = (Ok tt, w)) as Hreq by (by destruct id).
  cbn [for_of]. rewrite !bind_run. unfold checkAdmin.
  destruct (rejection ctx); [done|]. cbv beta iota.
  rewrite !bind_run, Hreq. cbv beta iota.
  rewrite !bind_run, transaction_then_ret.
  destruct (transaction (deleteOneOrder id) ctx w) as [[[]|e] w1]; [|done].
  cbv beta iota. rewrite !bind_run. unfold revalidatePath. simpl. done.
Qed.

Lemma batch_of_one_witness :
  db (deleteOrder (js "A") Sample.ctx Sample.world).2 =
  db (deleteOrders (Some [js "A"]) Sample.ctx Sample.world).2.
Proof.
  apply (proj1 (proj2 (batch_of_one (js "A") Sample.ctx Sample.world
           ltac:(vm_compute; discriminate) (trim_edge_clean (js "A"))))).
Defined.
